(** * The Ontology adapter of TrustedBench (src/ontology/ontology.js)

    A shallow embedding of the class [Ontology]: its constructor (wallet
    decryption), [installSmartContract], [transfer], [invokeSmartContract]
    and [waitABlock], followed by the properties of the adapter.

    JavaScript objects that the adapter shares and mutates (the ABI
    descriptions kept in [this.contractAbiInfo], the function descriptor
    that [getFunction] hands out) live in an explicit object store; calls
    into the collaborators (transport, signing, sleep, log) are recorded in
    a trace. *)

From Stdlib Require Import ZArith.
From stdpp Require Import base option list strings gmap.

Set Default Proof Using "Type".

(** ** Transaction status (comm/transaction.js) *)

(** Modelled from the spec: the class [TxStatus] of comm/transaction.js is
    not part of the sources at hand.  The spec describes it as the
    transaction hash plus a binary outcome flag (pending/success versus
    failed), created in the non-failed state. *)
Record TxStatus := mkTxStatus {
  ts_id : string;
  ts_failed : bool
}.

Definition newTxStatus (id : string) : TxStatus :=
  {| ts_id := id; ts_failed := false |}.

Definition SetStatusFail (s : TxStatus) : TxStatus :=
  {| ts_id := ts_id s; ts_failed := true |}.

Definition GetID (s : TxStatus) : string := ts_id s.

(** ** JavaScript values and errors *)

(** The values the harness passes in ([context], [timeout], the entries of
    [args.args], ...) and gets back. *)
Inductive jsval :=
| JUndefined
| JNull
| JBool (b : bool)
| JNum (z : Z)
| JStr (s : string)
| JTxStatus (s : TxStatus).

(** What a [throw] (or a rejected promise) carries. *)
Inductive Error :=
| JsError (message : string)     (* [new Error(message)], raised by the adapter *)
| TypeError (message : string)   (* raised by the language itself *)
| LibError (message : string).   (* raised inside a collaborator: fs, JSON, SDK *)

(** Completion of a synchronous piece of code. *)
Inductive Result (A : Type) :=
| Ok (a : A)
| Thrown (e : Error).
Arguments Ok {A} a.
Arguments Thrown {A} e.

(** ** ABI descriptions (objects of ontology-ts-sdk) *)

(** The SDK class is called Parameter, a reserved word here. *)
Record AbiParameter := mkAbiParameter {
  p_name : string;
  p_type : string;
  p_value : jsval
}.

Record AbiFunction := mkAbiFunction {
  f_name : string;
  f_returntype : string;
  f_parameters : list AbiParameter
}.

(** An [AbiInfo] as the adapter uses it: the declared functions and the
    [vmCode] field that [installSmartContract] adds to the object. *)
Record AbiInfo := mkAbiInfo {
  functions : list AbiFunction;
  vmCode : jsval
}.

(** ** The object store *)

Definition loc := nat.

Inductive Obj :=
| OAbiInfo (a : AbiInfo)
| OAbiFunction (f : AbiFunction)
| OObject.                         (* {} : an object without any property *)

(** ** Calls into the collaborators *)

Inductive Event :=
| EvSign                      (* TransactionBuilder.signTransaction *)
| EvPostTx (data : string)    (* NetUtil.postTx(data) *)
| EvGetHeight (h : Z)         (* NetUtil.getHeight() answered h *)
| EvSleep (ms : Z)            (* Util.sleep(ms) *)
| EvLog (line : list string). (* log(...) *)

#[global] Instance Event_eq_dec : EqDecision Event.
Proof. solve_decision. Defined.

(** ** Adapter state

    [contractAbiInfo] is the [Map] created by the constructor; its values
    are references into [heap].  [reads] counts the height readings the
    node has answered so far. *)
Record State := mkState {
  contractAbiInfo : gmap string loc;
  heap : gmap loc Obj;
  trace : list Event;
  reads : nat
}.

Definition initState : State :=
  {| contractAbiInfo := ∅; heap := ∅; trace := []; reads := 0 |}.

(** ** A state and exception monad for the synchronous code *)

Definition M (A : Type) : Type := State → State * Result A.

Definition ret {A} (a : A) : M A := λ st, (st, Ok a).
Definition throw {A} (e : Error) : M A := λ st, (st, Thrown e).
Definition bind {A B} (m : M A) (k : A → M B) : M B :=
  λ st, match m st with
        | (st', Ok a) => k a st'
        | (st', Thrown e) => (st', Thrown e)
        end.

(** The notations [x ← m; k] and [m ;; k] of stdpp stand for [bind]. *)
#[global] Instance M_ret : MRet M := @ret.
#[global] Instance M_bind : MBind M := λ A B k m, bind m k.

Definition emit (e : Event) : M unit :=
  λ st, ({| contractAbiInfo := contractAbiInfo st; heap := heap st;
            trace := trace st ++ [e]; reads := reads st |}, Ok tt).

Definition log (line : list string) : M unit := emit (EvLog line).

(** [Array.prototype.forEach] with a callback that may throw. *)
Fixpoint forEach {A} (f : A → M unit) (l : list A) : M unit :=
  match l with
  | [] => ret tt
  | x :: l' => f x ;; forEach f l'
  end.

(** ** Promises of the transport *)

(** How the node answers a posted transaction: the promise of
    [NetUtil.postTx] is fulfilled with a number or rejected. *)
Inductive Reply :=
| Fulfilled (result : Z)
| Rejected (e : Error).

(** A pending promise is its continuation: what runs once the reply is in. *)
Definition Promise (A : Type) : Type := Reply → M A.

(** [promise.then(cb)] with one callback: [cb] runs on fulfilment, a
    rejection passes through. *)
Definition then_ {A} (cb : Z → M A) : Promise A :=
  λ reply, match reply with
           | Fulfilled result => cb result
           | Rejected e => throw e
           end.

(** [NetUtil.postTx(data).then(cb)]: the transaction is handed to the
    transport now, the promise is returned. *)
Definition postTx_then {A} (data : string) (cb : Z → M A) : M (Promise A) :=
  emit (EvPostTx data) ;;
  ret (then_ cb).

(** [NetUtil.postTx(data)] with the promise dropped (deploy). *)
Definition postTx (data : string) : M unit := emit (EvPostTx data).

(** The call is made, then the reply arrives. *)
Definition settle {A} (call : M (Promise A)) (reply : Reply) : M A :=
  p ← call; p reply.

(** [result.GetID()] where [result] is the number the transport answered:
    a number has no such method, the call raises. *)
Definition number_GetID (result : Z) : M string :=
  throw (TypeError "result.GetID is not a function").

(** The callback both [transfer] and [invokeSmartContract] pass to [then]:
<<
    (result) => {
        if (result < 0) {
            invokeStatus.SetStatusFail();
            log('tx %s failed', result.GetID());
        }
        log('sendtx');
        return invokeStatus;
    }
>> *)
Definition onPosted (invokeStatus : TxStatus) (result : Z) : M TxStatus :=
  invokeStatus ← (if (result <? 0)%Z then
                    let invokeStatus := SetStatusFail invokeStatus in
                    id ← number_GetID result;
                    log ["tx %s failed"; id] ;;
                    ret invokeStatus
                  else ret invokeStatus);
  log ["sendtx"] ;;
  ret invokeStatus.

(** The promise both methods return for the status [invokeStatus]. *)
Definition posted (invokeStatus : TxStatus) : Promise TxStatus :=
  then_ (onPosted invokeStatus).

(** ** transfer *)

Definition transfer (txHash txData : string) : M (Promise TxStatus) :=
  let invokeStatus := newTxStatus txHash in
  postTx_then txData (onPosted invokeStatus).

(** ** The collaborators outside the adapter

    ontology-ts-sdk (wallet decryption, transaction building, signing,
    hashing, ABI parsing) and Node's [Buffer].  The adapter only
    orchestrates calls into them, so they are an interface here.  The
    builders are total; [new PrivateKey], [decrypt] and [parseJson] may
    raise. *)

(** What [abiInfo.getFunction(name)] does with a name the ABI description
    does not declare.  Neither the adapter nor its specification says; the
    adapter tests the answer against [undefined], the library may as well
    answer an empty object or raise. *)
Inductive Missing :=
| AnswersUndefined
| AnswersEmptyObject
| ThrowsError (e : Error).

Record DecryptParam := mkDecryptParam {
  dp_cost : Z;
  dp_blockSize : Z;
  dp_parallel : Z;
  dp_size : Z
}.

Class OntSdk := {
  Address : Type;
  PrivateKey : Type;
  EncryptedKey : Type;
  Transaction : Type;
  (* Buffer.from(s, 'base64').toString('hex') *)
  base64ToHex : string → string;
  (* new ontSdk.Crypto.PrivateKey(key) *)
  newPrivateKey : string → Result EncryptedKey;
  (* encryptedPrivateKeyObj.decrypt(password, address, saltHex, param) *)
  decrypt : EncryptedKey → string → Address → string → DecryptParam →
            Result PrivateKey;
  makeDeployCodeTransaction :
    string → string → string → string → string → string → bool →
    string → string → Address → Transaction;
  makeInvokeTransaction :
    string → list AbiParameter → Address → string → string → Address →
    Transaction;
  signTransaction : Transaction → PrivateKey → Transaction;
  serialize : Transaction → string;
  getHash : Transaction → string;
  reverseHex : string → string;
  fromVmCode : jsval → Address;
  (* ontSdk.AbiInfo.parseJson(content): the declared functions *)
  parseJson : string → Result (list AbiFunction);
  (* abiInfo.getFunction(name) for a name that is not declared *)
  getFunctionMissing : Missing
}.

(** ** Configuration and wallet *)

(** One entry of [blockChainConfig.ontology.contract]. *)
Record ContractItem := mkContractItem {
  item_name : string;
  item_version : string;
  item_author : string;
  item_email : string;
  item_description : string;
  item_needStorage : bool;
  item_path : string;
  item_abi : string
}.

Record Scrypt := mkScrypt {
  scrypt_n : Z;
  scrypt_r : Z;
  scrypt_p : Z;
  scrypt_dkLen : Z
}.

Section Adapter.
Context `{sdk : OntSdk}.

Record Account := mkAccount {
  address : Address;
  salt : string;
  encryptedKey : string   (* account.encryptedKey.key *)
}.

Record Wallet := mkWallet {
  accounts : list Account;
  scrypt : Scrypt
}.

(** The fields of [this] that never change after construction.  The
    registry [this.contractAbiInfo] is written by [installSmartContract]
    and lives in [State]. *)
Record Ontology := mkOntology {
  contractConfig : list ContractItem;
  wallet : Wallet;
  account : Account;
  privateKey : PrivateKey
}.

(** *** constructor *)

(** The body of the [try] block.  [this.account] is
    [this.wallet.accounts[0]], undefined for a wallet without accounts:
    reading [this.account.salt] then raises inside the block. *)
Definition decryptWallet (w : Wallet) (password : string)
  : Result (Account * PrivateKey) :=
  match accounts w !! 0 with
  | None => Thrown (TypeError "Cannot read property 'salt' of undefined")
  | Some acc =>
      let saltHex := base64ToHex (salt acc) in
      match newPrivateKey (encryptedKey acc) with
      | Thrown e => Thrown e
      | Ok encryptedPrivateKeyObj =>
          let decryptParam :=
            {| dp_cost := scrypt_n (scrypt w);
               dp_blockSize := scrypt_r (scrypt w);
               dp_parallel := scrypt_p (scrypt w);
               dp_size := scrypt_dkLen (scrypt w) |} in
          match decrypt encryptedPrivateKeyObj password (address acc)
                        saltHex decryptParam with
          | Thrown e => Thrown e
          | Ok pk => Ok (acc, pk)
          end
      end
  end.

(** The constructor after the configuration files have been read and
    parsed: [cfg] is [blockChainConfig.ontology.contract], [w] the parsed
    wallet, [password] is [blockChainConfig.ontology.password].  Whatever
    the [try] block raises is replaced by one error.  A call that succeeds
    yields the adapter and the state it starts in: [this.contractAbiInfo]
    is a new, empty [Map]. *)
Definition constructor (cfg : list ContractItem) (w : Wallet)
    (password : string) : Result (Ontology * State) :=
  match decryptWallet w password with
  | Thrown err => Thrown (JsError "decrypt wallet failed")
  | Ok (acc, pk) =>
      Ok ({| contractConfig := cfg; wallet := w; account := acc;
             privateKey := pk |}, initState)
  end.

(** *** The file system and the node *)

(** [files] is what [fs.readFileSync(path, 'utf-8')] finds; [heights k]
    is the node's answer to the k-th height request. *)
Variable files : gmap string string.
Variable heights : nat → Z.

Definition readFileSync (path : string) : M string :=
  match files !! path with
  | Some content => ret content
  | None => throw (LibError "ENOENT: no such file or directory")
  end.

(** *** Objects *)

Definition alloc (o : Obj) : M loc :=
  λ st, let l := fresh (dom (heap st)) in
        ({| contractAbiInfo := contractAbiInfo st;
            heap := <[l := o]> (heap st);
            trace := trace st; reads := reads st |}, Ok l).

Definition store (l : loc) (o : Obj) : M unit :=
  λ st, ({| contractAbiInfo := contractAbiInfo st;
            heap := <[l := o]> (heap st);
            trace := trace st; reads := reads st |}, Ok tt).

Definition readAbiInfo (l : loc) : M AbiInfo :=
  λ st, match heap st !! l with
        | Some (OAbiInfo a) => (st, Ok a)
        | _ => (st, Thrown (TypeError "not an AbiInfo"))
        end.

Definition readAbiFunction (l : loc) : M AbiFunction :=
  λ st, match heap st !! l with
        | Some (OAbiFunction f) => (st, Ok f)
        | _ => (st, Thrown (TypeError "not an AbiFunction"))
        end.

(** [this.contractAbiInfo.get(name)] and [this.contractAbiInfo.set(name, v)]. *)
Definition registryGet (name : string) : M (option loc) :=
  λ st, (st, Ok (contractAbiInfo st !! name)).

Definition registrySet (name : string) (v : loc) : M unit :=
  λ st, ({| contractAbiInfo := <[name := v]> (contractAbiInfo st);
            heap := heap st; trace := trace st; reads := reads st |},
         Ok tt).

(** [signTransaction(tx, key)] signs [tx] in place. *)
Definition sign (tx : Transaction) (key : PrivateKey) : M Transaction :=
  emit EvSign ;; ret (signTransaction tx key).

(** [ontSdk.AbiInfo.parseJson(content)]: a new object, [vmCode] not set. *)
Definition parseJsonAbi (content : string) : M loc :=
  match parseJson content with
  | Thrown e => throw e
  | Ok fs => alloc (OAbiInfo {| functions := fs; vmCode := JUndefined |})
  end.

(** [abiInfo.vmCode = code] *)
Definition setVmCode (abiInfo : loc) (code : jsval) : M unit :=
  a ← readAbiInfo abiInfo;
  store abiInfo (OAbiInfo {| functions := functions a; vmCode := code |}).

(** *** installSmartContract *)

(** The callback of [this.contractConfig.forEach]. *)
Definition deployItem (this : Ontology) (item : ContractItem) : M unit :=
  let name := item_name item in
  let codeVersion := item_version item in
  let author := item_author item in
  let email := item_email item in
  let desp := item_description item in
  let needStorage := item_needStorage item in
  vmCode ← readFileSync (item_path item);
  let tx := makeDeployCodeTransaction vmCode name codeVersion author email
              desp needStorage "0" "20000000" (address (account this)) in
  tx ← sign tx (privateKey this);
  postTx (serialize tx) ;;
  abiFileContent ← readFileSync (item_abi item);
  abiInfo ← parseJsonAbi abiFileContent;
  setVmCode abiInfo (JStr vmCode) ;;
  registrySet name abiInfo ;;
  let txHash := reverseHex (getHash tx) in
  log ["deploy"; txHash].

(** *** waitABlock *)

(** [await this.getHeight()]: the next reading of the node. *)
Definition getHeight (st : State) : State * Z :=
  let h := heights (reads st) in
  ({| contractAbiInfo := contractAbiInfo st; heap := heap st;
      trace := trace st ++ [EvGetHeight h]; reads := S (reads st) |}, h).

(** [await Util.sleep(ms)] *)
Definition sleep (ms : Z) (st : State) : State :=
  {| contractAbiInfo := contractAbiInfo st; heap := heap st;
     trace := trace st ++ [EvSleep ms]; reads := reads st |}.

(** The [do ... while] loop.  [fuel] bounds the number of iterations that
    are run; [None] means the loop is still going when the fuel is spent. *)
Fixpoint waitLoop (fuel : nat) (currnetHeight : Z) (st : State)
  : State * option unit :=
  match fuel with
  | O => (st, None)
  | S fuel' =>
      let '(st, newHeight) := getHeight st in
      if (newHeight >? currnetHeight)%Z then (st, Some tt)
      else
        let st := sleep 1000 st in
        if (newHeight <=? currnetHeight)%Z
        then waitLoop fuel' currnetHeight st
        else (st, Some tt)
  end.

Definition waitABlock (fuel : nat) (st : State) : State * option unit :=
  let '(st, currnetHeight) := getHeight st in
  waitLoop fuel currnetHeight st.

(** What the promise of an [async] method settles to; [None] while it is
    still pending. *)
Definition installSmartContract (fuel : nat) (this : Ontology) (st : State)
  : State * option (Result jsval) :=
  match forEach (deployItem this) (contractConfig this) st with
  | (st, Thrown e) => (st, Some (Thrown e))
  | (st, Ok _) =>
      match waitABlock fuel st with
      | (st, Some _) => (st, Some (Ok JUndefined))
      | (st, None) => (st, None)
      end
  end.

(** *** init, getContext, releaseContext *)

(** Each returns [Promise.resolve()]: a promise fulfilled with [undefined]. *)
Definition init : M jsval := ret JUndefined.
Definition getContext (name : string) (args : jsval) : M jsval := ret JUndefined.
Definition releaseContext (context : jsval) : M jsval := ret JUndefined.

(** *** invokeSmartContract *)

(** The declared function called [name], if there is one.  Only a string
    can equal a declared name. *)
Definition findFunction (name : jsval) (fs : list AbiFunction)
  : option AbiFunction :=
  match name with
  | JStr s => find (λ f, String.eqb (f_name f) s) fs
  | _ => None
  end.

(** Modelled from the spec: [getFunction] belongs to ontology-ts-sdk,
    which is not part of the sources at hand.  For a declared name the spec
    has the binder produce a function-invocation descriptor with no side
    effect beyond producing it: the descriptor handed out is a new object, a
    copy of the declaration.  For a name that is not declared the answer is
    the library's, [getFunctionMissing]: [undefined] ([None]), a new empty
    object, or an error. *)
Definition getFunction (abiInfo : loc) (name : jsval) : M (option loc) :=
  a ← readAbiInfo abiInfo;
  match findFunction name (functions a) with
  | Some f => l ← alloc (OAbiFunction f); ret (Some l)
  | None =>
      match getFunctionMissing with
      | AnswersUndefined => ret None
      | AnswersEmptyObject => l ← alloc OObject; ret (Some l)
      | ThrowsError e => throw e
      end
  end.

(** [value != null] *)
Definition isNullish (v : jsval) : bool :=
  match v with
  | JUndefined | JNull => true
  | _ => false
  end.

(** Modelled from the spec: [setParamsValue] belongs to ontology-ts-sdk.
    It receives the parameter built for one slot and nothing else, so the
    slot is found by name and type: the value is bound to the declared
    parameter of that name and type, in the descriptor the method is called
    on.  A parameter whose value is [undefined] or [null] binds nothing: the
    slot keeps the value it was declared with. *)
Definition setValue (param q : AbiParameter) : AbiParameter :=
  if String.eqb (p_name q) (p_name param)
     && String.eqb (p_type q) (p_type param)
     && negb (isNullish (p_value param))
  then {| p_name := p_name q; p_type := p_type q; p_value := p_value param |}
  else q.

Definition setParamsValue (abiFunc : loc) (param : AbiParameter) : M unit :=
  f ← readAbiFunction abiFunc;
  store abiFunc
    (OAbiFunction {| f_name := f_name f; f_returntype := f_returntype f;
                     f_parameters := setValue param <$> f_parameters f |}).

(** The argument object: [a_func] is the own property [func] when there
    is one, [a_args] the property [args]. *)
Record Args := mkArgs {
  a_func : option jsval;
  a_args : option (list jsval)
}.

(** [args.func] and [args.hasOwnProperty('func')] *)
Definition args_func (args : Args) : jsval := default JUndefined (a_func args).
Definition hasOwnProperty_func (args : Args) : bool := bool_decide (is_Some (a_func args)).

(** [args.args[i]]: indexing [undefined] raises, an index past the end
    of an array reads [undefined]. *)
Definition args_at (args : Args) (i : nat) : M jsval :=
  match a_args args with
  | None => throw (TypeError "Cannot read property of undefined")
  | Some l => ret (default JUndefined (l !! i))
  end.

(** One iteration of the [for] loop, at index [i]. *)
Definition bindArg (abiFunc : loc) (args : Args) (i : nat) : M unit :=
  f ← readAbiFunction abiFunc;
  match f_parameters f !! i with
  | None => throw (TypeError "Cannot read property 'getName' of undefined")
  | Some q =>
      v ← args_at args i;
      let param := {| p_name := p_name q; p_type := p_type q; p_value := v |} in
      setParamsValue abiFunc param
  end.

(** [for (let i = 0; i < abiFunc.parameters.length; i++)]: binding keeps
    the number of parameters, the indices are those below the length. *)
Definition bindArgs (abiFunc : loc) (args : Args) : M unit :=
  f ← readAbiFunction abiFunc;
  forEach (bindArg abiFunc args) (seq 0 (length (f_parameters f))).

Definition invokeSmartContract (this : Ontology) (context : jsval)
    (contractID : string) (contractVer : jsval) (args : Args)
    (timeout : jsval) : M (Promise TxStatus) :=
  abiInfo ← registryGet contractID;
  match abiInfo with
  | None => throw (JsError "the contract doesn't deploy!")
  | Some abiInfo =>
      abiFunc ← getFunction abiInfo (args_func args);
      match hasOwnProperty_func args, abiFunc with
      | true, Some abiFunc =>
          bindArgs abiFunc args ;;
          f ← readAbiFunction abiFunc;
          a ← readAbiInfo abiInfo;
          let tx := makeInvokeTransaction (f_name f) (f_parameters f)
                      (fromVmCode (vmCode a)) "0" "20000000"
                      (address (account this)) in
          tx ← sign tx (privateKey this);
          let txHash := reverseHex (getHash tx) in
          let invokeStatus := newTxStatus txHash in
          log ["invoke"; txHash] ;;
          postTx_then (serialize tx) (onPosted invokeStatus)
      | _, _ => throw (JsError "not define invoke contract func!")
      end
  end.

End Adapter.

(** Looking a contract up as [invokeSmartContract] does: the registry
    entry, then the ABI description it refers to. *)
Definition lookupAbi (st : State) (name : string) : option AbiInfo :=
  match contractAbiInfo st !! name with
  | Some l => match heap st !! l with
              | Some (OAbiInfo a) => Some a
              | _ => None
              end
  | None => None
  end.

Arguments Account {sdk}.
Arguments Wallet {sdk}.
Arguments Ontology {sdk}.

(** ** A concrete world for examples

    A stand-in SDK over strings, a file system with one contract, a wallet
    with one account. *)
Module Sample.

Definition sdk : OntSdk :=
  {| Address := string;
     PrivateKey := string;
     EncryptedKey := string;
     Transaction := string;
     base64ToHex := λ s, s;
     newPrivateKey := λ key,
       if String.eqb key "" then Thrown (LibError "invalid key") else Ok key;
     decrypt := λ enc password addr saltHex param,
       if String.eqb password "secret" then Ok ("sk:" +:+ enc)
       else Thrown (LibError "Decrypto_ERROR");
     makeDeployCodeTransaction :=
       λ code name ver author email desp storage gasPrice gasLimit payer,
         "deploy:" +:+ name +:+ ":" +:+ code;
     makeInvokeTransaction := λ fname params addr gasPrice gasLimit payer,
       "invoke:" +:+ fname +:+ "@" +:+ addr;
     signTransaction := λ tx key, tx +:+ "#" +:+ key;
     serialize := λ tx, "raw(" +:+ tx +:+ ")";
     getHash := λ tx, "hash(" +:+ tx +:+ ")";
     reverseHex := λ h, "rev:" +:+ h;
     fromVmCode := λ code, match code with JStr c => "addr:" +:+ c | _ => "addr:?" end;
     parseJson := λ content,
       if String.eqb content "token-abi" then
         Ok [ {| f_name := "transfer"; f_returntype := "Bool";
                 f_parameters :=
                   [ {| p_name := "to"; p_type := "ByteArray"; p_value := JStr "" |};
                     {| p_name := "amount"; p_type := "Integer"; p_value := JStr "" |} ] |};
              {| f_name := "totalSupply"; f_returntype := "Integer";
                 f_parameters := [] |} ]
       else if String.eqb content "token-abi-v2" then
         Ok [ {| f_name := "mint"; f_returntype := "Bool"; f_parameters := [] |} ]
       else Thrown (LibError "Unexpected token");
     getFunctionMissing := ThrowsError (LibError "not found") |}.

Definition files : gmap string string :=
  <["token.avm" := "00c56b"]>
  (<["token.abi.json" := "token-abi"]>
  (<["token2.avm" := "51c56b"]>
  (<["token2.abi.json" := "token-abi-v2"]> ∅))).

Definition token : ContractItem :=
  {| item_name := "Token"; item_version := "1.0"; item_author := "bench";
     item_email := "bench@example.org"; item_description := "token";
     item_needStorage := true; item_path := "token.avm";
     item_abi := "token.abi.json" |}.

Definition token2 : ContractItem :=
  {| item_name := "Token"; item_version := "2.0"; item_author := "bench";
     item_email := "bench@example.org"; item_description := "token";
     item_needStorage := true; item_path := "token2.avm";
     item_abi := "token2.abi.json" |}.

Definition acct : Account (sdk := sdk) :=
  @mkAccount sdk "AQf4Mzu1" "c2FsdA==" "9d1e".

Definition wlt : Wallet (sdk := sdk) :=
  @mkWallet sdk [acct]
    {| scrypt_n := 4096; scrypt_r := 8; scrypt_p := 8; scrypt_dkLen := 64 |}.

Definition this : Ontology (sdk := sdk) :=
  @mkOntology sdk [token] wlt acct "sk:9d1e".

(** The successive heights the node reports. *)
Definition heightsOf (l : list Z) : nat → Z := λ k, default 0%Z (l !! k).

(** The ABI description that deploying [token] registers. *)
Definition tokenAbi : AbiInfo :=
  {| functions :=
       [ {| f_name := "transfer"; f_returntype := "Bool";
            f_parameters :=
              [ {| p_name := "to"; p_type := "ByteArray"; p_value := JStr "" |};
                {| p_name := "amount"; p_type := "Integer"; p_value := JStr "" |} ] |};
         {| f_name := "totalSupply"; f_returntype := "Integer";
            f_parameters := [] |} ];
     vmCode := JStr "00c56b" |}.

(** The adapter after [installSmartContract], the node going from height
    10 to height 11. *)
Definition deployed : State :=
  fst (installSmartContract (sdk := sdk) files (heightsOf [10; 11]%Z) 1 this
         initState).

Definition transferCall : Args :=
  {| a_func := Some (JStr "transfer");
     a_args := Some [JStr "AQf4Mzu1"; JNum 5] |}.

(** The adapter after a call of [transfer] of the token contract. *)
Definition invoked : State :=
  fst (invokeSmartContract (sdk := sdk) this JNull "Token" JNull
         transferCall JNull deployed).

End Sample.

(** ** More sample configurations *)
Module Scenario.

(** An item whose bytecode file does not exist. *)
Definition ghost : ContractItem :=
  {| item_name := "Ghost"; item_version := "1.0"; item_author := "bench";
     item_email := "bench@example.org"; item_description := "ghost";
     item_needStorage := false; item_path := "ghost.avm";
     item_abi := "ghost.abi.json" |}.

(** An item whose bytecode is there and whose ABI file is not. *)
Definition noAbi : ContractItem :=
  {| item_name := "Coin"; item_version := "1.0"; item_author := "bench";
     item_email := "bench@example.org"; item_description := "coin";
     item_needStorage := true; item_path := "token.avm";
     item_abi := "coin.abi.json" |}.

(** The second token contract under a name of its own. *)
Definition coin : ContractItem :=
  {| item_name := "Coin"; item_version := "2.0"; item_author := "bench";
     item_email := "bench@example.org"; item_description := "coin";
     item_needStorage := true; item_path := "token2.avm";
     item_abi := "token2.abi.json" |}.

(** The declaration of [transfer] in the ABI of the token contract. *)
Definition transferDecl : AbiFunction :=
  {| f_name := "transfer"; f_returntype := "Bool";
     f_parameters :=
       [ {| p_name := "to"; p_type := "ByteArray"; p_value := JStr "" |};
         {| p_name := "amount"; p_type := "Integer"; p_value := JStr "" |} ] |}.

(** The sample adapter with another configuration. *)
Definition adapter (cfg : list ContractItem) : Ontology (sdk := Sample.sdk) :=
  @mkOntology Sample.sdk cfg Sample.wlt Sample.acct "sk:9d1e".

End Scenario.

(** ** Specification vocabulary *)

(** [framed reg h0 st]: the registry of [st] is [reg] and its store still
    holds every object of [h0], unchanged. *)
Definition framed (reg : gmap string loc) (h0 : gmap loc Obj) (st : State)
  : Prop :=
  contractAbiInfo st = reg ∧ h0 ⊆ heap st.

(** [keeps reg h0 m Q]: run from a framed state, [m] ends in a framed state,
    and a result it returns satisfies [Q].  Objects allocated on the way are
    outside [h0] and may be written. *)
Definition keeps (reg : gmap string loc) (h0 : gmap loc Obj) {A} (m : M A)
    (Q : A → Prop) : Prop :=
  ∀ st st' res, framed reg h0 st → m st = (st', res) →
    framed reg h0 st' ∧ match res with Ok a => Q a | Thrown _ => True end.

(** Every name of the registry leads to an ABI description. *)
Definition wf (st : State) : Prop :=
  ∀ name, is_Some (contractAbiInfo st !! name) → is_Some (lookupAbi st name).

(** A state with another store, or with more events in its trace. *)
Definition withHeap (h : gmap loc Obj) (st : State) : State :=
  {| contractAbiInfo := contractAbiInfo st; heap := h; trace := trace st;
     reads := reads st |}.

Definition withTrace (evs : list Event) (st : State) : State :=
  {| contractAbiInfo := contractAbiInfo st; heap := heap st;
     trace := trace st ++ evs; reads := reads st |}.

(** [quiet m]: [m] works on the store only; it calls no collaborator, reads
    no height and leaves the registry as it is. *)
Definition quiet {A} (m : M A) : Prop :=
  ∀ st st' res, m st = (st', res) →
    contractAbiInfo st' = contractAbiInfo st ∧ trace st' = trace st ∧
    reads st' = reads st.


(** The bytecode field of an ABI description has been set to a string. *)
Definition hasCode (a : AbiInfo) : Prop := ∃ code, vmCode a = JStr code.

(** A descriptor with another parameter list. *)
Definition withParameters (ps : list AbiParameter) (f : AbiFunction)
  : AbiFunction :=
  {| f_name := f_name f; f_returntype := f_returntype f; f_parameters := ps |}.

(** What the [for] loop of [invokeSmartContract] does to the parameter
    list of the descriptor, one index after the other. *)
Definition bindStep (l : list jsval) (ps : list AbiParameter) (i : nat)
  : list AbiParameter :=
  match ps !! i with
  | Some q =>
      setValue {| p_name := p_name q; p_type := p_type q;
                  p_value := default JUndefined (l !! i) |} <$> ps
  | None => ps
  end.

Definition bindAll (l : list jsval) (ps : list AbiParameter)
  : list AbiParameter :=
  foldl (bindStep l) ps (seq 0 (length ps)).

(** The parameter [q] of index [i] with its argument: [args.args[i]] when
    that is a value, the declared value when it is [undefined] (also past
    the end of the list) or [null]. *)
Definition bindOne (l : list jsval) (i : nat) (q : AbiParameter) : AbiParameter :=
  if isNullish (default JUndefined (l !! i)) then q
  else {| p_name := p_name q; p_type := p_type q;
          p_value := default JUndefined (l !! i) |}.

(** Positional binding: the i-th parameter with the i-th argument. *)
Definition bindPositional (l : list jsval) (ps : list AbiParameter)
  : list AbiParameter :=
  imap (bindOne l) ps.

(** The slots below [k] are bound, the others are as declared. *)
Definition boundBelow (l : list jsval) (k : nat) (ps : list AbiParameter)
  : list AbiParameter :=
  imap (λ i q, if decide (i < k) then bindOne l i q else q) ps.

Section Vocabulary.
Context `{sdk : OntSdk}.

(** The transaction [installSmartContract] builds and signs for [item]
    whose bytecode file holds [code]. *)
Definition deployTx (this : Ontology) (item : ContractItem) (code : string)
  : Transaction :=
  signTransaction
    (makeDeployCodeTransaction code (item_name item) (item_version item)
       (item_author item) (item_email item) (item_description item)
       (item_needStorage item) "0" "20000000" (address (account this)))
    (privateKey this).

(** The calls one deployed item makes. *)
Definition deployEvents (this : Ontology) (item : ContractItem) (code : string)
  : list Event :=
  [EvSign; EvPostTx (serialize (deployTx this item code));
   EvLog ["deploy"; reverseHex (getHash (deployTx this item code))]].

(** The transaction [invokeSmartContract] builds and signs for the bound
    descriptor [f] of a contract whose ABI description is [a]. *)
Definition invokeTx (this : Ontology) (f : AbiFunction) (a : AbiInfo)
  : Transaction :=
  signTransaction
    (makeInvokeTransaction (f_name f) (f_parameters f) (fromVmCode (vmCode a))
       "0" "20000000" (address (account this)))
    (privateKey this).

(** An item whose two files are there, the ABI file parsing. *)
Definition deployable (files : gmap string string) (item : ContractItem) : Prop :=
  is_Some (files !! item_path item) ∧
  ∃ text fs, files !! item_abi item = Some text ∧ parseJson text = Ok fs.


End Vocabulary.

(** The height readings of [k] polls that did not advance, from reading
    number [from] on: each is followed by a sleep of one second. *)
Fixpoint idlePolls (heights : nat → Z) (from k : nat) : list Event :=
  match k with
  | O => []
  | S k' => EvGetHeight (heights from) :: EvSleep 1000
            :: idlePolls heights (S from) k'
  end.

(** * Properties *)

(** ** The monad *)

Lemma bind_unfold {A B} (m : M A) (k : A → M B) (st : State) :
  (m ≫= k) st =
  match m st with
  | (st', Ok a) => k a st'
  | (st', Thrown e) => (st', Thrown e)
  end.
Proof. reflexivity. Qed.

Lemma bind_Ok_inv {A B} (m : M A) (k : A → M B) st st' b :
  (m ≫= k) st = (st', Ok b) →
  ∃ a st1, m st = (st1, Ok a) ∧ k a st1 = (st', Ok b).
Proof.
  rewrite bind_unfold. destruct (m st) as [st1 [a|e]]; intros H.
  - by exists a, st1.
  - discriminate.
Qed.

(** ** The callback of a submission *)


Lemma onPosted_neg (s : TxStatus) (result : Z) (st : State) :
  (result < 0)%Z →
  onPosted s result st = (st, Thrown (TypeError "result.GetID is not a function")).
Proof.
  intros Hr. unfold onPosted.
  destruct (Z.ltb_spec result 0) as [_|Hpos]; [|lia]. reflexivity.
Qed.

Lemma postTx_then_spec (data : string) (s : TxStatus) (st : State) :
  postTx_then data (onPosted s) st =
  ({| contractAbiInfo := contractAbiInfo st; heap := heap st;
      trace := trace st ++ [EvPostTx data]; reads := reads st |},
   Ok (posted s)).
Proof. reflexivity. Qed.

Ltac inv_bind H :=
  let a := fresh "a" in
  let st := fresh "st" in
  let Hm := fresh "Hm" in
  apply bind_Ok_inv in H; destruct H as (a & st & Hm & H).

(** A call of [invokeSmartContract] that returns a promise has signed one
    transaction [tx], handed its serialization to the transport last, and
    the promise tracks the status created from the reversed hash of [tx]. *)
Lemma invokeSmartContract_Ok_inv `{sdk : OntSdk} (this : Ontology)
    context contractID contractVer args timeout st st1 pr :
  invokeSmartContract this context contractID contractVer args timeout st
    = (st1, Ok pr) →
  ∃ tx : Transaction,
    pr = posted (newTxStatus (reverseHex (getHash tx))) ∧
    last (trace st1) = Some (EvPostTx (serialize tx)).
Proof.
  unfold invokeSmartContract. intros H.
  inv_bind H. destruct a as [abiInfo|]; [|discriminate].
  inv_bind H. destruct (hasOwnProperty_func args); [|discriminate].
  destruct a as [abiFunc|]; [|discriminate].
  do 5 inv_bind H.
  rewrite postTx_then_spec in H. injection H as <- <-.
  eexists. split; [reflexivity|]. simpl. by rewrite last_snoc.
Qed.

(** ** The constructor *)

Lemma constructor_Ok_inv `{sdk : OntSdk} cfg (w : Wallet) password this st :
  constructor cfg w password = Ok (this, st) →
  decryptWallet w password = Ok (account this, privateKey this) ∧
  contractConfig this = cfg ∧ st = initState.
Proof.
  unfold constructor.
  destruct (decryptWallet w password) as [[acc pk]|e]; [|discriminate].
  by intros [= <- <-].
Qed.

(** C8 — whatever is raised while the key of the first account is being
    decrypted (no first account, a key blob the SDK refuses, a decryption
    that fails), the constructor raises the one error
    'decrypt wallet failed' and yields no adapter object, so no method can
    be called on one. *)
Theorem constructor_decrypt_failure `{sdk : OntSdk} cfg (w : Wallet)
    password e :
  decryptWallet w password = Thrown e →
  constructor cfg w password = Thrown (JsError "decrypt wallet failed") ∧
  ∀ this st, constructor cfg w password ≠ Ok (this, st).
Proof.
  intros H. unfold constructor. rewrite H. split; [reflexivity|discriminate].
Qed.

Lemma constructor_decrypt_failure_witness :
  constructor (sdk := Sample.sdk) [Sample.token] Sample.wlt "wrong"
    = Thrown (JsError "decrypt wallet failed") ∧
  ∀ this st, constructor (sdk := Sample.sdk) [Sample.token] Sample.wlt "wrong"
               ≠ Ok (this, st).
Proof.
  apply (constructor_decrypt_failure (sdk := Sample.sdk) [Sample.token]
           Sample.wlt "wrong" (LibError "Decrypto_ERROR")).
  reflexivity.
Defined.

(** ** Submission *)

(** C2 — when the transport answers a negative result, the callback marks
    the status as failed and then calls [GetID] on the number it was
    answered: the call raises, the promise of [transfer] and of
    [invokeSmartContract] is rejected with that TypeError and no status
    record reaches the caller. *)
Theorem negative_result_rejects `{sdk : OntSdk} (result : Z) :
  (result < 0)%Z →
  (∀ txHash txData st,
     snd (settle (transfer txHash txData) (Fulfilled result) st)
       = Thrown (TypeError "result.GetID is not a function")) ∧
  (∀ (this : Ontology) context contractID contractVer args timeout st st1 pr,
     invokeSmartContract this context contractID contractVer args timeout st
       = (st1, Ok pr) →
     pr (Fulfilled result) st1
       = (st1, Thrown (TypeError "result.GetID is not a function"))).
Proof.
  intros Hr. split.
  - intros txHash txData st. unfold settle, transfer.
    rewrite bind_unfold, postTx_then_spec. unfold posted, then_.
    by rewrite onPosted_neg.
  - intros this context contractID contractVer args timeout st st1 pr H.
    apply invokeSmartContract_Ok_inv in H as (tx & -> & _).
    unfold posted, then_. by rewrite onPosted_neg.
Qed.

Lemma negative_result_rejects_witness :
  snd (settle (transfer "6f1e" "00d1") (Fulfilled (-1)) initState)
    = Thrown (TypeError "result.GetID is not a function").
Proof.
  apply (negative_result_rejects (sdk := Sample.sdk) (-1)). reflexivity.
Defined.


(** ** invokeSmartContract: the two guards *)

(** C6 — invoking a contract name that has no registry entry raises
    'the contract doesn't deploy!' from the call itself, in an unchanged
    state: no descriptor was bound, nothing was signed, nothing was handed
    to the transport. *)
Theorem invoke_unknown_contract `{sdk : OntSdk} (this : Ontology)
    context contractID contractVer args timeout st :
  contractAbiInfo st !! contractID = None →
  invokeSmartContract this context contractID contractVer args timeout st
    = (st, Thrown (JsError "the contract doesn't deploy!")).
Proof.
  intros H. unfold invokeSmartContract.
  rewrite bind_unfold. unfold registryGet. by rewrite H.
Qed.

Lemma invoke_unknown_contract_witness :
  invokeSmartContract (sdk := Sample.sdk) Sample.this JNull "Token" (JStr "1.0")
    {| a_func := Some (JStr "transfer");
       a_args := Some [JStr "AQf4Mzu1"; JNum 5] |} (JNum 30) initState
    = (initState, Thrown (JsError "the contract doesn't deploy!")).
Proof.
  apply (invoke_unknown_contract (sdk := Sample.sdk)). reflexivity.
Defined.

(** The registry guard comes first: without a registry entry it raises,
    whether or not the argument object has a [func] field. *)
Lemma invoke_without_func_on_unknown_contract :
  let args := {| a_func := None; a_args := Some [JNum 1] |} in
  a_func args = None ∧
  snd (invokeSmartContract (sdk := Sample.sdk) Sample.this JNull "Token" JNull
         args JNull initState)
    ≠ Thrown (JsError "not define invoke contract func!").
Proof. split; [reflexivity|]. vm_compute. discriminate. Qed.

Lemma lookupAbi_Some (st : State) (name : string) (a : AbiInfo) :
  lookupAbi st name = Some a ↔
  ∃ l, contractAbiInfo st !! name = Some l ∧ heap st !! l = Some (OAbiInfo a).
Proof.
  unfold lookupAbi. split.
  - destruct (contractAbiInfo st !! name) as [l|]; [|done].
    destruct (heap st !! l) as [[a'|f|]|] eqn:E; try done.
    intros [= ->]. by exists l.
  - intros (l & -> & ->). done.
Qed.

(** A name that no declared function carries is not found. *)
Lemma findFunction_None (name : jsval) (fs : list AbiFunction) :
  (∀ f, f ∈ fs → name ≠ JStr (f_name f)) → findFunction name fs = None.
Proof.
  intros H. destruct name as [| | | |s|]; try done. simpl.
  induction fs as [|f fs IH]; [done|]. simpl.
  destruct (String.eqb_spec (f_name f) s) as [Heq|_].
  - exfalso. apply (H f); [left|by rewrite Heq].
  - apply IH. intros g Hg. apply H. by right.
Qed.

(** What a call meets when the contract is registered and the name is not
    declared: the lookup of line 133 runs before the guard of line 134, so
    the outcome is the library's answer to an undeclared name. *)
Lemma invokeSmartContract_undeclared `{sdk : OntSdk} (this : Ontology)
    context contractID contractVer args timeout st a :
  lookupAbi st contractID = Some a →
  findFunction (args_func args) (functions a) = None →
  invokeSmartContract this context contractID contractVer args timeout st =
  match getFunctionMissing with
  | AnswersUndefined =>
      (st, Thrown (JsError "not define invoke contract func!"))
  | ThrowsError e => (st, Thrown e)
  | AnswersEmptyObject =>
      (withHeap (<[fresh (dom (heap st)) := OObject]> (heap st)) st,
       Thrown (if hasOwnProperty_func args
               then TypeError "not an AbiFunction"
               else JsError "not define invoke contract func!"))
  end.
Proof.
  intros (abiInfo & Hreg & Ha)%lookupAbi_Some Hnone.
  unfold invokeSmartContract.
  rewrite bind_unfold. unfold registryGet. rewrite Hreg.
  rewrite bind_unfold. unfold getFunction.
  rewrite bind_unfold. unfold readAbiInfo. rewrite Ha, Hnone.
  destruct getFunctionMissing as [| |e]; simpl.
  - by destruct (hasOwnProperty_func args).
  - destruct (hasOwnProperty_func args); [|done].
    unfold bindArgs. rewrite !bind_unfold. unfold readAbiFunction. simpl.
    by rewrite lookup_insert_eq.
  - done.
Qed.

Lemma undeclared_not_found (args : Args) (a : AbiInfo) :
  a_func args = None ∨
    (∀ f, f ∈ functions a → args_func args ≠ JStr (f_name f)) →
  findFunction (args_func args) (functions a) = None.
Proof.
  intros [Hf|Hf]; [|by apply findFunction_None].
  unfold args_func. by rewrite Hf.
Qed.

(** The guard of line 134 does its work when the lookup answers
    [undefined] for an undeclared name. *)
Lemma invoke_guard_after_undefined_answer `{sdk : OntSdk} (this : Ontology)
    context contractID contractVer args timeout st a :
  getFunctionMissing = AnswersUndefined →
  lookupAbi st contractID = Some a →
  a_func args = None ∨
    (∀ f, f ∈ functions a → args_func args ≠ JStr (f_name f)) →
  invokeSmartContract this context contractID contractVer args timeout st
    = (st, Thrown (JsError "not define invoke contract func!")).
Proof.
  intros Hm Ha Hfun.
  rewrite (invokeSmartContract_undeclared this _ _ _ _ _ st a)
    by (done || by apply undeclared_not_found).
  by rewrite Hm.
Qed.

(** C1 — for a contract name under which the registry holds an ABI
    description, and an argument object that has no [func] field or names a
    function the description does not declare: the lookup
    [abiInfo.getFunction(args.func)] runs before the guard, so the call
    raises 'not define invoke contract func!' only where the lookup answers
    [undefined].  Where the lookup raises, the call raises the lookup's own
    error for both kinds of argument object; where it answers an empty
    object, a named but undeclared function gets a TypeError from the
    binding loop and only a missing [func] reaches the guard. *)
Theorem invoke_lookup_precedes_guard `{sdk : OntSdk} (this : Ontology)
    context contractID contractVer args timeout st a :
  lookupAbi st contractID = Some a →
  a_func args = None ∨
    (∀ f, f ∈ functions a → args_func args ≠ JStr (f_name f)) →
  match getFunctionMissing with
  | ThrowsError e =>
      invokeSmartContract this context contractID contractVer args timeout st
        = (st, Thrown e)
  | AnswersEmptyObject =>
      ∃ st1,
        invokeSmartContract this context contractID contractVer args timeout st
          = (st1, Thrown (if hasOwnProperty_func args
                          then TypeError "not an AbiFunction"
                          else JsError "not define invoke contract func!"))
  | AnswersUndefined =>
      invokeSmartContract this context contractID contractVer args timeout st
        = (st, Thrown (JsError "not define invoke contract func!"))
  end.
Proof.
  intros Ha Hfun.
  rewrite (invokeSmartContract_undeclared this _ _ _ _ _ st a)
    by (done || by apply undeclared_not_found).
  destruct getFunctionMissing; [done|by eexists|done].
Qed.

(** ** invokeSmartContract: the unused parameters *)

(** C10 — [context], [contractVer] and [timeout] are never read: two calls
    that differ only in them raise the same error or return the same
    promise, which settles to the same status for the same reply. *)
Theorem invoke_ignores_context_version_timeout `{sdk : OntSdk}
    (this : Ontology) contractID args
    context1 contractVer1 timeout1 context2 contractVer2 timeout2 st :
  invokeSmartContract this context1 contractID contractVer1 args timeout1 st
    = invokeSmartContract this context2 contractID contractVer2 args timeout2 st
  ∧ ∀ reply,
      settle (invokeSmartContract this context1 contractID contractVer1 args
                timeout1) reply st
      = settle (invokeSmartContract this context2 contractID contractVer2 args
                  timeout2) reply st.
Proof. split; [|intros reply]; reflexivity. Qed.

(** ** waitABlock *)

Section Poller.
Variable heights : nat → Z.

(** One iteration, by the reading it makes. *)
Lemma waitLoop_step_le fuel cur st :
  (heights (reads st) ≤ cur)%Z →
  waitLoop heights (S fuel) cur st =
  waitLoop heights fuel cur (sleep 1000 (fst (getHeight heights st))).
Proof.
  intros Hle. simpl.
  destruct (Z.gtb_spec (heights (reads st)) cur) as [Hgt|_]; [lia|].
  by rewrite (proj2 (Z.leb_le _ _)).
Qed.

Lemma waitLoop_step_gt fuel cur st :
  (cur < heights (reads st))%Z →
  waitLoop heights (S fuel) cur st = (fst (getHeight heights st), Some tt).
Proof.
  intros Hgt. simpl.
  by destruct (Z.gtb_spec (heights (reads st)) cur) as [_|Hle]; [|lia].
Qed.

Lemma reads_after_poll st :
  reads (sleep 1000 (fst (getHeight heights st))) = S (reads st).
Proof. reflexivity. Qed.

(** While the readings stay at or below the baseline the loop goes on:
    it has made one reading per unit of fuel and has not returned. *)
Lemma waitLoop_pending fuel cur st :
  (∀ j, j < fuel → (heights (reads st + j) ≤ cur)%Z) →
  ∃ st', waitLoop heights fuel cur st = (st', None) ∧
         reads st' = reads st + fuel.
Proof.
  revert st. induction fuel as [|fuel IH]; intros st Hle.
  - exists st. split; [reflexivity|lia].
  - pose proof (Hle 0 ltac:(lia)) as H0. rewrite Nat.add_0_r in H0.
    rewrite waitLoop_step_le by done.
    destruct (IH (sleep 1000 (fst (getHeight heights st)))) as (st' & E & R).
    + intros j Hj. rewrite reads_after_poll.
      specialize (Hle (S j) ltac:(lia)).
      by replace (S (reads st) + j) with (reads st + S j) by lia.
    + exists st'. split; [exact E|]. rewrite R, reads_after_poll. lia.
Qed.

(** The loop returns on the first reading above the baseline. *)
Lemma waitLoop_returns k fuel cur st :
  k < fuel →
  (∀ j, j < k → (heights (reads st + j) ≤ cur)%Z) →
  (cur < heights (reads st + k))%Z →
  ∃ st', waitLoop heights fuel cur st = (st', Some tt) ∧
         reads st' = reads st + k + 1.
Proof.
  revert fuel st. induction k as [|k IH]; intros fuel st Hk Hle Hgt;
    (destruct fuel as [|fuel]; [lia|]).
  - rewrite Nat.add_0_r in Hgt. rewrite waitLoop_step_gt by done.
    eexists. split; [reflexivity|]. simpl. lia.
  - pose proof (Hle 0 ltac:(lia)) as H0. rewrite Nat.add_0_r in H0.
    rewrite waitLoop_step_le by done.
    destruct (IH fuel (sleep 1000 (fst (getHeight heights st))))
      as (st' & E & R).
    + lia.
    + intros j Hj. rewrite reads_after_poll.
      specialize (Hle (S j) ltac:(lia)).
      by replace (S (reads st) + j) with (reads st + S j) by lia.
    + rewrite reads_after_poll.
      by replace (S (reads st) + k) with (reads st + S k) by lia.
    + exists st'. split; [exact E|]. rewrite R, reads_after_poll. lia.
Qed.

(** Some reading above the baseline within the fuel is enough. *)
Lemma waitLoop_returns_by j fuel cur st :
  j < fuel → (cur < heights (reads st + j))%Z →
  ∃ st', waitLoop heights fuel cur st = (st', Some tt).
Proof.
  revert fuel st. induction j as [|j IH]; intros fuel st Hj Hgt;
    (destruct fuel as [|fuel]; [lia|]).
  - rewrite Nat.add_0_r in Hgt. rewrite waitLoop_step_gt by done.
    by eexists.
  - destruct (Z.lt_ge_cases cur (heights (reads st))) as [Hlt|Hge].
    + rewrite waitLoop_step_gt by done. by eexists.
    + rewrite waitLoop_step_le by done.
      apply IH; [lia|]. rewrite reads_after_poll.
      by replace (S (reads st) + j) with (reads st + S j) by lia.
Qed.

(** The loop only returns after a reading above the baseline. *)
Lemma waitLoop_Some_inv fuel cur st st' :
  waitLoop heights fuel cur st = (st', Some tt) →
  ∃ j, j < fuel ∧ (cur < heights (reads st + j))%Z.
Proof.
  revert st. induction fuel as [|fuel IH]; intros st; [discriminate|].
  destruct (Z.lt_ge_cases cur (heights (reads st))) as [Hlt|Hge].
  - intros _. exists 0. rewrite Nat.add_0_r. split; [lia|done].
  - rewrite waitLoop_step_le by done. intros H.
    apply IH in H as (j & Hj & Hgt). rewrite reads_after_poll in Hgt.
    exists (S j). split; [lia|].
    by replace (reads st + S j) with (S (reads st) + j) by lia.
Qed.

End Poller.

Lemma reads_getHeight (heights : nat → Z) st :
  reads (fst (getHeight heights st)) = S (reads st).
Proof. reflexivity. Qed.

Lemma waitABlock_unfold (heights : nat → Z) fuel st :
  waitABlock heights fuel st =
  waitLoop heights fuel (heights (reads st)) (fst (getHeight heights st)).
Proof. reflexivity. Qed.

(** C9 — with the first reading as baseline: [waitABlock] returns on the
    first later reading that is above the baseline, having made exactly the
    readings up to that one; when no later reading is above the baseline it
    never returns and the number of readings grows with the fuel, without
    bound; and it returns (for some fuel) exactly when some later reading is
    above the baseline. *)
Theorem waitABlock_returns_iff_height_advances (heights : nat → Z) (st : State) :
  let base := heights (reads st) in
  (∀ k fuel,
     1 ≤ k ≤ fuel →
     (∀ j, 1 ≤ j < k → (heights (reads st + j)%nat ≤ base)%Z) →
     (base < heights (reads st + k)%nat)%Z →
     ∃ st', waitABlock heights fuel st = (st', Some tt) ∧
            reads st' = reads st + 1 + k) ∧
  ((∀ j, 1 ≤ j → (heights (reads st + j)%nat ≤ base)%Z) →
   ∀ fuel, ∃ st', waitABlock heights fuel st = (st', None) ∧
                  reads st' = reads st + 1 + fuel) ∧
  ((∃ fuel st', waitABlock heights fuel st = (st', Some tt)) ↔
   (∃ k, 1 ≤ k ∧ (base < heights (reads st + k)%nat)%Z)).
Proof.
  intros base. split; [|split; [|split]].
  - intros k fuel Hk Hle Hgt. rewrite waitABlock_unfold.
    destruct (waitLoop_returns heights (k - 1) fuel base
                (fst (getHeight heights st))) as (st' & E & R).
    + lia.
    + intros j Hj. rewrite reads_getHeight.
      replace (S (reads st) + j) with (reads st + S j) by lia.
      apply Hle. lia.
    + rewrite reads_getHeight.
      by replace (S (reads st) + (k - 1)) with (reads st + k) by lia.
    + exists st'. split; [exact E|]. rewrite R, reads_getHeight. lia.
  - intros Hle fuel. rewrite waitABlock_unfold.
    destruct (waitLoop_pending heights fuel base
                (fst (getHeight heights st))) as (st' & E & R).
    + intros j Hj. rewrite reads_getHeight.
      replace (S (reads st) + j) with (reads st + S j) by lia.
      apply Hle. lia.
    + exists st'. split; [exact E|]. rewrite R, reads_getHeight. lia.
  - intros (fuel & st' & H). rewrite waitABlock_unfold in H.
    apply waitLoop_Some_inv in H as (j & Hj & Hgt).
    rewrite reads_getHeight in Hgt.
    exists (S j). split; [lia|].
    by replace (reads st + S j) with (S (reads st) + j) by lia.
  - intros (k & Hk & Hgt). exists k.
    setoid_rewrite waitABlock_unfold.
    apply (waitLoop_returns_by heights (k - 1)); [lia|].
    rewrite reads_getHeight.
    by replace (S (reads st) + (k - 1)) with (reads st + k) by lia.
Qed.

Lemma waitABlock_returns_iff_height_advances_witness :
  (∃ st', waitABlock (Sample.heightsOf [10; 10; 12; 12]%Z) 5 initState
            = (st', Some tt) ∧ reads st' = 3) ∧
  (∀ fuel, ∃ st', waitABlock (λ _, 7%Z) fuel initState = (st', None) ∧
                  reads st' = 1 + fuel).
Proof.
  split.
  - apply (waitABlock_returns_iff_height_advances
             (Sample.heightsOf [10; 10; 12; 12]%Z) initState).
    + simpl. lia.
    + intros j Hj. simpl in *. assert (j = 1) as -> by lia. by vm_compute.
    + by vm_compute.
  - apply (waitABlock_returns_iff_height_advances (λ _, 7%Z) initState).
    intros j _. simpl. lia.
Defined.

(** C3 — for the readings 100, 100, 100, 101: after the baseline reading
    [waitABlock] makes three readings and returns on the third, the one
    that answers 101, and it has slept twice, 1000 ms each time.  Two
    iterations are not enough for it to return. *)
Theorem waitABlock_100_100_100_101
    (reg : gmap string loc) (h : gmap loc Obj) (tr : list Event) (extra : nat) :
  let heights := Sample.heightsOf [100; 100; 100; 101]%Z in
  let st := {| contractAbiInfo := reg; heap := h; trace := tr; reads := 0 |} in
  waitABlock heights (3 + extra) st =
    ({| contractAbiInfo := reg; heap := h;
        trace := tr ++ [EvGetHeight 100;
                        EvGetHeight 100; EvSleep 1000;
                        EvGetHeight 100; EvSleep 1000;
                        EvGetHeight 101];
        reads := 4 |}, Some tt) ∧
  snd (waitABlock heights 2 st) = None.
Proof.
  split; [|reflexivity].
  unfold waitABlock, getHeight. simpl.
  by rewrite <- !app_assoc.
Qed.

(** ** What a call leaves alone *)

Section Frame.
Context `{sdk : OntSdk}.
Variable reg : gmap string loc.
Variable h0 : gmap loc Obj.

#[local] Abbreviation framed := (framed reg h0).
#[local] Abbreviation keeps := (keeps reg h0).

Lemma keeps_ret {A} (a : A) (Q : A → Prop) : Q a → keeps (mret a) Q.
Proof. intros HQ st st' res Hf [= <- <-]. done. Qed.

Lemma keeps_throw {A} (e : Error) (Q : A → Prop) : keeps (throw e) Q.
Proof. intros st st' res Hf [= <- <-]. done. Qed.

Lemma keeps_bind {A B} (m : M A) (k : A → M B) (P : A → Prop) (Q : B → Prop) :
  keeps m P → (∀ a, P a → keeps (k a) Q) → keeps (m ≫= k) Q.
Proof.
  intros Hm Hk st st' res Hf. rewrite bind_unfold.
  destruct (m st) as [st1 [a|e]] eqn:E; intros H.
  - destruct (Hm _ _ _ Hf E) as [Hf1 HP]. exact (Hk a HP _ _ _ Hf1 H).
  - injection H as <- <-. by destruct (Hm _ _ _ Hf E).
Qed.

Lemma keeps_weaken {A} (m : M A) (P Q : A → Prop) :
  keeps m P → (∀ a, P a → Q a) → keeps m Q.
Proof.
  intros Hm HPQ st st' res Hf H. destruct (Hm _ _ _ Hf H) as [Hf' HP].
  split; [done|]. destruct res; auto.
Qed.

Lemma keeps_emit (e : Event) : keeps (emit e) (λ _, True).
Proof. intros st st' res Hf [= <- <-]. done. Qed.

Lemma keeps_readAbiInfo (l : loc) : keeps (readAbiInfo l) (λ _, True).
Proof.
  intros st st' res Hf. unfold readAbiInfo.
  destruct (heap st !! l) as [[a|f|]|]; intros [= <- <-]; done.
Qed.

Lemma keeps_readAbiFunction (l : loc) : keeps (readAbiFunction l) (λ _, True).
Proof.
  intros st st' res Hf. unfold readAbiFunction.
  destruct (heap st !! l) as [[a|f|]|]; intros [= <- <-]; done.
Qed.

Lemma keeps_registryGet (name : string) : keeps (registryGet name) (λ _, True).
Proof. intros st st' res Hf [= <- <-]. done. Qed.

(** A new object lies outside [h0]. *)
Lemma keeps_alloc (o : Obj) : keeps (alloc o) (λ l, l ∉ dom h0).
Proof.
  intros st st' res [Hreg Hsub] [= <- <-].
  assert (Hfresh : fresh (dom (heap st)) ∉ dom h0).
  { intros Hin. apply (is_fresh (dom (heap st))).
    by apply (subseteq_dom _ _ Hsub). }
  split; [|done]. split; [done|]. simpl.
  apply insert_subseteq_r; [|done]. by apply not_elem_of_dom.
Qed.

(** Writing an object outside [h0] is allowed. *)
Lemma keeps_store (l : loc) (o : Obj) :
  l ∉ dom h0 → keeps (store l o) (λ _, True).
Proof.
  intros Hl st st' res [Hreg Hsub] [= <- <-].
  split; [|done]. split; [done|]. simpl.
  apply insert_subseteq_r; [|done]. by apply not_elem_of_dom.
Qed.

Lemma keeps_forEach {A} (f : A → M unit) (l : list A) :
  (∀ x, keeps (f x) (λ _, True)) → keeps (forEach f l) (λ _, True).
Proof.
  intros Hf. induction l as [|x l IH]; simpl.
  - by apply keeps_ret.
  - eapply keeps_bind; [apply Hf|]. intros _ _. exact IH.
Qed.

Lemma keeps_getFunction (abiInfo : loc) (name : jsval) :
  keeps (getFunction abiInfo name)
        (λ r, match r with Some l => l ∉ dom h0 | None => True end).
Proof.
  unfold getFunction. eapply keeps_bind; [apply keeps_readAbiInfo|].
  intros a _. destruct (findFunction name (functions a)) as [f|].
  - eapply keeps_bind; [apply keeps_alloc|].
    intros l Hl. by apply keeps_ret.
  - destruct getFunctionMissing as [| |e].
    + by apply keeps_ret.
    + eapply keeps_bind; [apply keeps_alloc|].
      intros l Hl. by apply keeps_ret.
    + apply keeps_throw.
Qed.

Lemma keeps_setParamsValue (abiFunc : loc) (param : AbiParameter) :
  abiFunc ∉ dom h0 → keeps (setParamsValue abiFunc param) (λ _, True).
Proof.
  intros Hl. unfold setParamsValue.
  eapply keeps_bind; [apply keeps_readAbiFunction|].
  intros f _. by apply keeps_store.
Qed.

Lemma keeps_args_at (args : Args) (i : nat) : keeps (args_at args i) (λ _, True).
Proof.
  unfold args_at. destruct (a_args args); [by apply keeps_ret|apply keeps_throw].
Qed.

Lemma keeps_bindArgs (abiFunc : loc) (args : Args) :
  abiFunc ∉ dom h0 → keeps (bindArgs abiFunc args) (λ _, True).
Proof.
  intros Hl. unfold bindArgs.
  eapply keeps_bind; [apply keeps_readAbiFunction|]. intros f _.
  apply keeps_forEach. intros i. unfold bindArg.
  eapply keeps_bind; [apply keeps_readAbiFunction|]. intros g _.
  destruct (f_parameters g !! i) as [q|]; [|apply keeps_throw].
  eapply keeps_bind; [apply keeps_args_at|]. intros v _.
  by apply keeps_setParamsValue.
Qed.

Lemma keeps_onPosted (s : TxStatus) (result : Z) :
  keeps (onPosted s result) (λ _, True).
Proof.
  unfold onPosted.
  eapply keeps_bind with (P := λ _, True).
  - destruct (result <? 0)%Z; [|by apply keeps_ret].
    eapply keeps_bind with (P := λ _, True); [apply keeps_throw|].
    intros id _.
    eapply keeps_bind; [apply keeps_emit|]. intros _ _. by apply keeps_ret.
  - intros s' _. eapply keeps_bind; [apply keeps_emit|].
    intros _ _. by apply keeps_ret.
Qed.

Lemma keeps_posted (s : TxStatus) (reply : Reply) :
  keeps (posted s reply) (λ _, True).
Proof. destruct reply; [apply keeps_onPosted|apply keeps_throw]. Qed.

Lemma keeps_invokeSmartContract (this : Ontology)
    context contractID contractVer args timeout :
  keeps (invokeSmartContract this context contractID contractVer args timeout)
        (λ pr, ∀ reply, keeps (pr reply) (λ _, True)).
Proof.
  unfold invokeSmartContract.
  eapply keeps_bind; [apply keeps_registryGet|].
  intros [abiInfo|] _; [|apply keeps_throw].
  eapply keeps_bind; [apply keeps_getFunction|].
  intros abiFunc Hl.
  destruct (hasOwnProperty_func args); [|apply keeps_throw].
  destruct abiFunc as [abiFunc|]; [|apply keeps_throw].
  eapply keeps_bind; [by apply keeps_bindArgs|]. intros _ _.
  eapply keeps_bind; [apply keeps_readAbiFunction|]. intros f _.
  eapply keeps_bind; [apply keeps_readAbiInfo|]. intros a _.
  eapply keeps_bind with (P := λ _, True).
  { unfold sign. eapply keeps_bind; [apply keeps_emit|].
    intros _ _. by apply keeps_ret. }
  intros tx _.
  eapply keeps_bind; [apply keeps_emit|]. intros _ _.
  unfold postTx_then.
  eapply keeps_bind; [apply keeps_emit|]. intros _ _.
  apply keeps_ret. intros reply. apply keeps_posted.
Qed.

End Frame.



Lemma invoke_lookup_precedes_guard_witness :
  invokeSmartContract (sdk := Sample.sdk) Sample.this JNull "Token" JNull
    {| a_func := Some (JStr "burn"); a_args := Some [JNum 1] |} JNull
    Sample.deployed
    = (Sample.deployed, Thrown (LibError "not found")) ∧
  invokeSmartContract (sdk := Sample.sdk) Sample.this JNull "Token" JNull
    {| a_func := None; a_args := Some [JStr "AQf4Mzu1"; JNum 5] |} JNull
    Sample.deployed
    = (Sample.deployed, Thrown (LibError "not found")).
Proof.
  split.
  - apply (invoke_lookup_precedes_guard (sdk := Sample.sdk) Sample.this JNull
             "Token" JNull _ JNull Sample.deployed Sample.tokenAbi).
    + by vm_compute.
    + right. intros f Hf. simpl.
      apply list_elem_of_In in Hf. simpl in Hf.
      destruct Hf as [<-|[<-|[]]]; discriminate.
  - apply (invoke_lookup_precedes_guard (sdk := Sample.sdk) Sample.this JNull
             "Token" JNull _ JNull Sample.deployed Sample.tokenAbi).
    + by vm_compute.
    + left. reflexivity.
Defined.

(** ** The registry *)

Section Registry.
Context `{sdk : OntSdk}.
Variable files : gmap string string.

(** Deploying an item whose two files are there and whose ABI file parses
    goes through, and the item's name then leads to the parsed ABI
    description together with the bytecode that was read. *)
Lemma deployItem_registers (this : Ontology) item code abiText fs st :
  files !! item_path item = Some code →
  files !! item_abi item = Some abiText →
  parseJson abiText = Ok fs →
  ∃ st' l, deployItem files this item st = (st', Ok tt) ∧
           contractAbiInfo st' = <[item_name item := l]> (contractAbiInfo st) ∧
           lookupAbi st' (item_name item)
             = Some {| functions := fs; vmCode := JStr code |}.
Proof.
  intros Hcode Habi Hparse.
  unfold deployItem, readFileSync, parseJsonAbi. rewrite Hcode, Habi.
  unfold mbind, M_bind, bind, ret, sign, postTx, emit. simpl.
  rewrite Hparse.
  unfold alloc, setVmCode, readAbiInfo, store, registrySet, log, emit,
    mbind, M_bind, bind.
  simpl. rewrite lookup_insert_eq.
  eexists _, _. split; [reflexivity|]. split; [reflexivity|].
  unfold lookupAbi. simpl. by rewrite !lookup_insert_eq.
Qed.

End Registry.

(** C7 — a contract registered under a name is found under that name with
    the ABI description and the bytecode it was registered with; a second
    registration under the same name leaves one entry for that name, and
    the entry is the second ABI description and bytecode, nothing of the
    first. *)
Theorem registry_roundtrip_and_replace `{sdk : OntSdk}
    (files : gmap string string) (this : Ontology)
    item1 code1 abiText1 fs1 item2 code2 abiText2 fs2 st :
  files !! item_path item1 = Some code1 →
  files !! item_abi item1 = Some abiText1 →
  parseJson abiText1 = Ok fs1 →
  files !! item_path item2 = Some code2 →
  files !! item_abi item2 = Some abiText2 →
  parseJson abiText2 = Ok fs2 →
  item_name item2 = item_name item1 →
  ∃ st1 st2,
    deployItem files this item1 st = (st1, Ok tt) ∧
    lookupAbi st1 (item_name item1)
      = Some {| functions := fs1; vmCode := JStr code1 |} ∧
    deployItem files this item2 st1 = (st2, Ok tt) ∧
    lookupAbi st2 (item_name item1)
      = Some {| functions := fs2; vmCode := JStr code2 |} ∧
    dom (contractAbiInfo st2) = dom (contractAbiInfo st1).
Proof.
  intros Hc1 Ha1 Hp1 Hc2 Ha2 Hp2 Hname.
  destruct (deployItem_registers files this item1 code1 abiText1 fs1 st
              Hc1 Ha1 Hp1) as (st1 & l1 & E1 & R1 & L1).
  destruct (deployItem_registers files this item2 code2 abiText2 fs2 st1
              Hc2 Ha2 Hp2) as (st2 & l2 & E2 & R2 & L2).
  exists st1, st2. rewrite Hname in L2, R2.
  repeat split; try done.
  by rewrite R2, R1, insert_insert_eq, !dom_insert_L.
Qed.

Lemma registry_roundtrip_and_replace_witness :
  ∃ st1 st2,
    deployItem (sdk := Sample.sdk) Sample.files Sample.this Sample.token
      initState = (st1, Ok tt) ∧
    lookupAbi st1 "Token" = Some Sample.tokenAbi ∧
    deployItem (sdk := Sample.sdk) Sample.files Sample.this Sample.token2 st1
      = (st2, Ok tt) ∧
    lookupAbi st2 "Token"
      = Some {| functions :=
                  [ {| f_name := "mint"; f_returntype := "Bool";
                       f_parameters := [] |} ];
                vmCode := JStr "51c56b" |} ∧
    dom (contractAbiInfo st2) = dom (contractAbiInfo st1).
Proof.
  apply (registry_roundtrip_and_replace (sdk := Sample.sdk) Sample.files
           Sample.this Sample.token "00c56b" "token-abi" _
           Sample.token2 "51c56b" "token-abi-v2" _ initState);
    reflexivity.
Defined.

(** ** Status records *)




(** ** Reachable states

    The adapter starts in [initState]; [installSmartContract] and
    [invokeSmartContract] keep [wf].  So a registry entry always leads to an
    ABI description, and an invocation meets one of the two guards or is
    bound against that description. *)

Lemma wf_initState : wf initState.
Proof. intros name [l Hl]. simpl in Hl. by rewrite lookup_empty in Hl. Qed.

Lemma wf_mono (st st' : State) :
  contractAbiInfo st' = contractAbiInfo st → heap st ⊆ heap st' →
  wf st → wf st'.
Proof.
  intros Hreg Hsub Hwf name Hn. rewrite Hreg in Hn.
  destruct (Hwf name Hn) as [a (l & H1 & H2)%lookupAbi_Some].
  exists a. apply lookupAbi_Some. exists l. rewrite Hreg.
  split; [done|]. by eapply lookup_weaken.
Qed.

Lemma wf_register (st : State) (name : string) (a : AbiInfo) tr rd :
  wf st →
  wf {| contractAbiInfo := <[name := fresh (dom (heap st))]> (contractAbiInfo st);
        heap := <[fresh (dom (heap st)) := OAbiInfo a]> (heap st);
        trace := tr; reads := rd |}.
Proof.
  intros Hwf name' Hn. simpl in Hn.
  destruct (decide (name = name')) as [<-|Hne].
  - exists a. apply lookupAbi_Some. exists (fresh (dom (heap st))).
    simpl. by rewrite !lookup_insert_eq.
  - rewrite lookup_insert_ne in Hn by done.
    destruct (Hwf name' Hn) as [a' (l & H1 & H2)%lookupAbi_Some].
    exists a'. apply lookupAbi_Some. exists l. simpl.
    rewrite lookup_insert_ne by done. split; [done|].
    rewrite lookup_insert_ne; [done|].
    intros <-. apply (is_fresh (dom (heap st))). apply elem_of_dom. by eexists.
Qed.

Section Reachable.
Context `{sdk : OntSdk}.
Variable files : gmap string string.
Variable heights : nat → Z.

Lemma deployItem_wf (this : Ontology) item st st' res :
  wf st → deployItem files this item st = (st', res) → wf st'.
Proof.
  intros Hwf. unfold deployItem, readFileSync, parseJsonAbi.
  destruct (files !! item_path item) as [code|]; [|by intros [= <- <-]].
  destruct (files !! item_abi item) as [text|].
  - unfold mbind, M_bind, bind, ret, sign, postTx, emit. simpl.
    destruct (parseJson text) as [fs|e].
    + unfold alloc, setVmCode, readAbiInfo, store, registrySet, log, emit,
        mbind, M_bind, bind.
      simpl. rewrite lookup_insert_eq. simpl. rewrite insert_insert_eq.
      intros [= <- <-]. by apply wf_register.
    + intros [= <- <-]. by apply (wf_mono st).
  - intros [= <- <-]. by apply (wf_mono st).
Qed.

Lemma forEach_deployItem_wf (this : Ontology) items st st' res :
  wf st → forEach (deployItem files this) items st = (st', res) → wf st'.
Proof.
  revert st. induction items as [|item items IH]; intros st Hwf; simpl.
  - by intros [= <- <-].
  - rewrite bind_unfold.
    destruct (deployItem files this item st) as [st1 [[]|e]] eqn:E.
    + apply IH. by eapply deployItem_wf.
    + intros [= <- <-]. by eapply deployItem_wf.
Qed.

(** Polling touches neither the registry nor the store. *)
Lemma waitLoop_frame fuel cur st :
  contractAbiInfo (fst (waitLoop heights fuel cur st)) = contractAbiInfo st ∧
  heap (fst (waitLoop heights fuel cur st)) = heap st.
Proof.
  revert st. induction fuel as [|fuel IH]; intros st; [done|].
  destruct (Z.lt_ge_cases cur (heights (reads st))) as [Hlt|Hge].
  - by rewrite waitLoop_step_gt.
  - rewrite waitLoop_step_le by done.
    by destruct (IH (sleep 1000 (fst (getHeight heights st)))) as [-> ->].
Qed.

Lemma installSmartContract_wf fuel (this : Ontology) st :
  wf st → wf (fst (installSmartContract files heights fuel this st)).
Proof.
  intros Hwf. unfold installSmartContract.
  destruct (forEach (deployItem files this) (contractConfig this) st)
    as [st1 [[]|e]] eqn:E; [|by eapply forEach_deployItem_wf].
  assert (Hwf1 : wf st1) by (by eapply forEach_deployItem_wf).
  destruct (waitLoop_frame fuel (heights (reads st1))
              (fst (getHeight heights st1))) as [Hreg Hheap].
  unfold waitABlock. simpl in *.
  destruct (waitLoop heights fuel (heights (reads st1)) _) as [st2 [[]|]];
    simpl in *; apply (wf_mono st1); by rewrite ?Hreg, ?Hheap.
Qed.

Lemma invokeSmartContract_wf (this : Ontology)
    context contractID contractVer args timeout reply st :
  wf st →
  wf (fst (settle (invokeSmartContract this context contractID contractVer
                     args timeout) reply st)).
Proof.
  intros Hwf. unfold settle.
  destruct ((invokeSmartContract this context contractID contractVer args
               timeout ≫= λ pr, pr reply) st) as [st' res] eqn:E.
  assert (Hk : keeps (contractAbiInfo st) (heap st)
                 (invokeSmartContract this context contractID contractVer args
                    timeout ≫= λ pr, pr reply) (λ _, True)).
  { eapply keeps_bind; [apply keeps_invokeSmartContract|].
    intros pr Hpr. apply Hpr. }
  destruct (Hk st st' res) as [[Hreg Hsub] _]; [by split|exact E|].
  by apply (wf_mono st).
Qed.

End Reachable.

(** * More about the adapter *)

(** ** Construction, then use *)

(** X1 — an adapter that was constructed works with the first account of
    the wallet and starts with an empty registry: every invocation made
    before a deploy raises 'the contract doesn't deploy!' and changes
    nothing. *)
Theorem fresh_adapter_rejects_invoke `{sdk : OntSdk} cfg (w : Wallet) password
    (this : Ontology) st context contractID contractVer args timeout :
  constructor cfg w password = Ok (this, st) →
  accounts w !! 0 = Some (account this) ∧
  invokeSmartContract this context contractID contractVer args timeout st
    = (st, Thrown (JsError "the contract doesn't deploy!")).
Proof.
  intros H. pose proof (constructor_Ok_inv _ _ _ _ _ H) as (Hd & _ & ->).
  split.
  - unfold decryptWallet in Hd.
    destruct (accounts w !! 0) as [acc|]; [|discriminate].
    destruct (newPrivateKey (encryptedKey acc)) as [enc|]; [|discriminate].
    destruct (decrypt enc password _ _ _) as [pk|]; [|discriminate].
    by injection Hd as -> _.
  - unfold invokeSmartContract. rewrite bind_unfold. unfold registryGet.
    simpl. by rewrite lookup_empty.
Qed.

Lemma fresh_adapter_rejects_invoke_witness :
  accounts Sample.wlt !! 0 = Some (account Sample.this) ∧
  invokeSmartContract (sdk := Sample.sdk) Sample.this JNull "Token" JNull
    Sample.transferCall JNull initState
    = (initState, Thrown (JsError "the contract doesn't deploy!")).
Proof.
  apply (fresh_adapter_rejects_invoke (sdk := Sample.sdk) [Sample.token]
           Sample.wlt "secret").
  reflexivity.
Defined.

(** ** A transport that fails *)

(** X2 — when the promise of [postTx] is rejected, the promise that
    [transfer] or [invokeSmartContract] returned is rejected with the same
    error: the callback does not run, nothing more is logged and no status
    record is delivered. *)
Theorem rejected_post_propagates `{sdk : OntSdk} (e : Error) :
  (∀ txHash txData st,
     settle (transfer txHash txData) (Rejected e) st
       = (withTrace [EvPostTx txData] st, Thrown e)) ∧
  (∀ (this : Ontology) context contractID contractVer args timeout st st1 pr,
     invokeSmartContract this context contractID contractVer args timeout st
       = (st1, Ok pr) →
     pr (Rejected e) st1 = (st1, Thrown e)).
Proof.
  split.
  - reflexivity.
  - intros this context contractID contractVer args timeout st st1 pr H.
    by apply invokeSmartContract_Ok_inv in H as (tx & -> & _).
Qed.

Lemma rejected_post_propagates_witness :
  posted (newTxStatus "rev:hash(invoke:transfer@addr:00c56b#sk:9d1e)")
    (Rejected (LibError "ECONNREFUSED")) Sample.invoked
    = (Sample.invoked, Thrown (LibError "ECONNREFUSED")).
Proof.
  apply (proj2 (rejected_post_propagates (sdk := Sample.sdk)
                  (LibError "ECONNREFUSED"))
           Sample.this JNull "Token" JNull Sample.transferCall JNull
           Sample.deployed).
  by vm_compute.
Defined.

(** ** Deploying one item *)

Lemma forEach_app {A} (f : A → M unit) (l1 l2 : list A) (st : State) :
  forEach f (l1 ++ l2) st =
  match forEach f l1 st with
  | (st1, Ok _) => forEach f l2 st1
  | (st1, Thrown e) => (st1, Thrown e)
  end.
Proof.
  revert st. induction l1 as [|x l1 IH]; intros st; [done|].
  simpl. rewrite !bind_unfold. destruct (f x st) as [st1 [[]|e]]; [|done].
  apply IH.
Qed.

Section Deploy.
Context `{sdk : OntSdk}.
Variable files : gmap string string.

(** The whole effect of a deploy that goes through. *)
Lemma deployItem_run (this : Ontology) item code text fs st :
  files !! item_path item = Some code →
  files !! item_abi item = Some text →
  parseJson text = Ok fs →
  deployItem files this item st =
  ({| contractAbiInfo :=
        <[item_name item := fresh (dom (heap st))]> (contractAbiInfo st);
      heap := <[fresh (dom (heap st)) :=
                  OAbiInfo {| functions := fs; vmCode := JStr code |}]> (heap st);
      trace := trace st ++ deployEvents this item code;
      reads := reads st |}, Ok tt).
Proof.
  intros Hcode Habi Hparse.
  unfold deployItem, readFileSync, parseJsonAbi. rewrite Hcode, Habi.
  unfold mbind, M_bind, bind, ret, sign, postTx, emit. simpl.
  rewrite Hparse.
  unfold alloc, setVmCode, readAbiInfo, store, registrySet, log, emit,
    mbind, M_bind, bind.
  simpl. rewrite lookup_insert_eq. simpl.
  by rewrite insert_insert_eq, <- !app_assoc.
Qed.

Lemma deployItem_no_code (this : Ontology) item st :
  files !! item_path item = None →
  deployItem files this item st
    = (st, Thrown (LibError "ENOENT: no such file or directory")).
Proof. intros H. unfold deployItem, readFileSync. by rewrite H. Qed.

Lemma deployItem_no_abi (this : Ontology) item code st :
  files !! item_path item = Some code →
  files !! item_abi item = None →
  deployItem files this item st
    = (withTrace [EvSign; EvPostTx (serialize (deployTx this item code))] st,
       Thrown (LibError "ENOENT: no such file or directory")).
Proof.
  intros Hcode Habi. unfold deployItem, readFileSync. rewrite Hcode, Habi.
  unfold mbind, M_bind, bind, ret, sign, postTx, emit, withTrace. simpl.
  by rewrite <- !app_assoc.
Qed.

Lemma deployItem_bad_abi (this : Ontology) item code text e st :
  files !! item_path item = Some code →
  files !! item_abi item = Some text →
  parseJson text = Thrown e →
  deployItem files this item st
    = (withTrace [EvSign; EvPostTx (serialize (deployTx this item code))] st,
       Thrown e).
Proof.
  intros Hcode Habi Hparse.
  unfold deployItem, readFileSync, parseJsonAbi. rewrite Hcode, Habi.
  unfold mbind, M_bind, bind, ret, sign, postTx, emit, withTrace. simpl.
  rewrite Hparse. simpl. by rewrite <- !app_assoc.
Qed.

End Deploy.

(** ** What a deploy does to the registry *)



Lemma lookupAbi_insert_other (st : State) name name' a a' tr rd :
  name ≠ name' →
  lookupAbi st name' = Some a' →
  lookupAbi
    {| contractAbiInfo := <[name := fresh (dom (heap st))]> (contractAbiInfo st);
       heap := <[fresh (dom (heap st)) := OAbiInfo a]> (heap st);
       trace := tr; reads := rd |} name' = Some a'.
Proof.
  intros Hne (l & Hl & Ha)%lookupAbi_Some. apply lookupAbi_Some.
  exists l. simpl. rewrite lookup_insert_ne by done. split; [done|].
  rewrite lookup_insert_ne; [done|].
  intros <-. apply (is_fresh (dom (heap st))). apply elem_of_dom. by eexists.
Qed.

Section DeployRegistry.
Context `{sdk : OntSdk}.
Variable files : gmap string string.

(** The four ways a deploy of one item can go. *)
Lemma deployItem_cases (this : Ontology) item st :
  (∃ code text fs,
     files !! item_path item = Some code ∧
     files !! item_abi item = Some text ∧ parseJson text = Ok fs ∧
     deployItem files this item st =
       ({| contractAbiInfo :=
             <[item_name item := fresh (dom (heap st))]> (contractAbiInfo st);
           heap := <[fresh (dom (heap st)) :=
                       OAbiInfo {| functions := fs; vmCode := JStr code |}]>
                     (heap st);
           trace := trace st ++ deployEvents this item code;
           reads := reads st |}, Ok tt)) ∨
  (∃ evs e, deployItem files this item st = (withTrace evs st, Thrown e)).
Proof.
  destruct (files !! item_path item) as [code|] eqn:Hcode.
  - destruct (files !! item_abi item) as [text|] eqn:Habi.
    + destruct (parseJson text) as [fs|e] eqn:Hparse.
      * left. exists code, text, fs. repeat split; try done.
        by eapply deployItem_run.
      * right. eexists _, _. by eapply deployItem_bad_abi.
    + right. eexists _, _. by apply deployItem_no_abi.
  - right. exists [], (LibError "ENOENT: no such file or directory").
    rewrite deployItem_no_code by done. unfold withTrace.
    rewrite app_nil_r. by destruct st.
Qed.


Lemma deployItem_lookup_other (this : Ontology) item name a st st' res :
  item_name item ≠ name →
  lookupAbi st name = Some a →
  deployItem files this item st = (st', res) →
  lookupAbi st' name = Some a.
Proof.
  intros Hne Ha.
  destruct (deployItem_cases this item st)
    as [(code & text & fs & _ & _ & _ & ->)|(evs & e & ->)]; intros [= <- <-].
  - by apply lookupAbi_insert_other.
  - done.
Qed.

Lemma deployItem_dom (this : Ontology) item st st' res :
  deployItem files this item st = (st', res) →
  dom (contractAbiInfo st) ⊆ dom (contractAbiInfo st').
Proof.
  destruct (deployItem_cases this item st)
    as [(code & text & fs & _ & _ & _ & ->)|(evs & e & ->)]; intros [= <- <-];
    simpl; [|done].
  rewrite dom_insert_L. apply union_subseteq_r.
Qed.

Lemma deployItem_keeps_coded (this : Ontology) item name st st' res :
  (∃ a, lookupAbi st name = Some a ∧ hasCode a) →
  deployItem files this item st = (st', res) →
  ∃ a, lookupAbi st' name = Some a ∧ hasCode a.
Proof.
  intros (a & Ha & Hc).
  destruct (deployItem_cases this item st)
    as [(code & text & fs & _ & _ & _ & ->)|(evs & e & ->)]; intros [= <- <-].
  - destruct (decide (item_name item = name)) as [<-|Hne].
    + exists {| functions := fs; vmCode := JStr code |}.
      split; [|by exists code].
      apply lookupAbi_Some. eexists. simpl. by rewrite !lookup_insert_eq.
    + exists a. split; [|done]. by apply lookupAbi_insert_other.
  - by exists a.
Qed.

Lemma forEach_deployItem_keeps_coded (this : Ontology) items name st st' res :
  (∃ a, lookupAbi st name = Some a ∧ hasCode a) →
  forEach (deployItem files this) items st = (st', res) →
  ∃ a, lookupAbi st' name = Some a ∧ hasCode a.
Proof.
  revert st. induction items as [|item items IH]; intros st Hc; simpl.
  - by intros [= <- <-].
  - rewrite bind_unfold.
    destruct (deployItem files this item st) as [st1 [[]|e]] eqn:E.
    + apply IH. by eapply deployItem_keeps_coded.
    + intros [= <- <-]. by eapply deployItem_keeps_coded.
Qed.

(** A run over all items that goes through has read no height and leaves
    every configured name registered, with bytecode. *)
Lemma forEach_deployItem_Ok (this : Ontology) items st st' :
  forEach (deployItem files this) items st = (st', Ok tt) →
  reads st' = reads st ∧
  ∀ item, item ∈ items →
    ∃ a, lookupAbi st' (item_name item) = Some a ∧ hasCode a.
Proof.
  revert st. induction items as [|item items IH]; intros st; simpl.
  - intros [= <-]. split; [done|]. intros item Hin. by apply elem_of_nil in Hin.
  - rewrite bind_unfold.
    destruct (deployItem files this item st) as [st1 [[]|e]] eqn:E;
      [|discriminate].
    intros H. destruct (IH st1 H) as [Hr Hall].
    destruct (deployItem_cases this item st)
      as [(code & text & fs & _ & _ & _ & Hrun)|(evs & e & Hrun)];
      rewrite Hrun in E; [|discriminate].
    injection E as <-. split; [by rewrite Hr|].
    intros item' [->|Hin]%elem_of_cons; [|by apply Hall].
    eapply forEach_deployItem_keeps_coded; [|exact H].
    exists {| functions := fs; vmCode := JStr code |}.
    split; [|by exists code].
    apply lookupAbi_Some. eexists. simpl. by rewrite !lookup_insert_eq.
Qed.

Lemma forEach_deployItem_dom (this : Ontology) items st st' res :
  forEach (deployItem files this) items st = (st', res) →
  dom (contractAbiInfo st) ⊆ dom (contractAbiInfo st').
Proof.
  revert st. induction items as [|item items IH]; intros st; simpl.
  - by intros [= <- <-].
  - rewrite bind_unfold.
    destruct (deployItem files this item st) as [st1 [[]|e]] eqn:E.
    + intros H. etrans; [by eapply deployItem_dom|by eapply IH].
    + intros [= <- <-]. by eapply deployItem_dom.
Qed.


(** The events of the items that deploy, in order. *)
Lemma forEach_deployItem_run (this : Ontology) items st :
  Forall (deployable files) items →
  ∃ st', forEach (deployItem files this) items st = (st', Ok tt) ∧
         reads st' = reads st ∧
         trace st' =
           trace st ++
           (items ≫= λ item,
              deployEvents this item (default "" (files !! item_path item))).
Proof.
  intros Hall. revert st. induction Hall as [|item items Hd _ IH]; intros st.
  - exists st. simpl. by rewrite app_nil_r.
  - destruct Hd as [[code Hcode] (text & fs & Habi & Hparse)].
    simpl. rewrite bind_unfold.
    rewrite (deployItem_run files this item code text fs) by done.
    destruct (IH {| contractAbiInfo :=
                      <[item_name item := fresh (dom (heap st))]>
                        (contractAbiInfo st);
                    heap := <[fresh (dom (heap st)) :=
                                OAbiInfo {| functions := fs;
                                            vmCode := JStr code |}]> (heap st);
                    trace := trace st ++ deployEvents this item code;
                    reads := reads st |}) as (st' & E & Hr & Ht).
    exists st'. split; [exact E|]. split; [exact Hr|].
    rewrite Ht. simpl. rewrite Hcode. simpl. by rewrite <- !app_assoc.
Qed.

End DeployRegistry.

(** ** The trace of the poller *)

Lemma waitLoop_trace (heights : nat → Z) k fuel cur st :
  k < fuel →
  (∀ j, j < k → (heights (reads st + j)%nat ≤ cur)%Z) →
  (cur < heights (reads st + k)%nat)%Z →
  waitLoop heights fuel cur st =
  ({| contractAbiInfo := contractAbiInfo st; heap := heap st;
      trace := trace st ++ idlePolls heights (reads st) k
                 ++ [EvGetHeight (heights (reads st + k))];
      reads := reads st + k + 1 |}, Some tt).
Proof.
  revert fuel st. induction k as [|k IH]; intros fuel st Hk Hle Hgt;
    (destruct fuel as [|fuel]; [lia|]).
  - rewrite Nat.add_0_r in *. rewrite waitLoop_step_gt by done.
    unfold getHeight. simpl. do 2 f_equal. lia.
  - pose proof (Hle 0 ltac:(lia)) as H0. rewrite Nat.add_0_r in H0.
    rewrite waitLoop_step_le by done.
    rewrite (IH fuel (sleep 1000 (fst (getHeight heights st)))).
    + simpl. rewrite <- !app_assoc. simpl.
      replace (S (reads st + k)) with (reads st + S k) by lia.
      do 2 f_equal. lia.
    + lia.
    + intros j Hj. rewrite reads_after_poll.
      specialize (Hle (S j) ltac:(lia)).
      by replace (S (reads st) + j) with (reads st + S j) by lia.
    + rewrite reads_after_poll.
      by replace (S (reads st) + k) with (reads st + S k) by lia.
Qed.

Lemma idlePolls_sleeps (heights : nat → Z) from k :
  length (filter (λ e, e = EvSleep 1000) (idlePolls heights from k)) = k.
Proof.
  revert from. induction k as [|k IH]; intros from; [done|].
  cbn [idlePolls]. rewrite filter_cons_False by discriminate.
  rewrite filter_cons_True by done. cbn [length]. by rewrite IH.
Qed.

(** X3 — whatever the heights are: when the k-th reading after the
    baseline is the first above it, [waitABlock] returns having made the
    baseline reading and exactly those k readings, with one sleep of 1000 ms
    after each of the k-1 readings that did not advance and none after the
    last; registry and store are as before. *)
Theorem waitABlock_trace (heights : nat → Z) (k fuel : nat) (st : State) :
  1 ≤ k ≤ fuel →
  (∀ j, 1 ≤ j < k →
        (heights (reads st + j)%nat ≤ heights (reads st))%Z) →
  (heights (reads st) < heights (reads st + k)%nat)%Z →
  waitABlock heights fuel st =
    ({| contractAbiInfo := contractAbiInfo st; heap := heap st;
        trace := trace st ++ EvGetHeight (heights (reads st))
                   :: idlePolls heights (S (reads st)) (k - 1)
                   ++ [EvGetHeight (heights (reads st + k)%nat)];
        reads := reads st + 1 + k |}, Some tt) ∧
  length (filter (λ e, e = EvSleep 1000)
            (idlePolls heights (S (reads st)) (k - 1))) = k - 1.
Proof.
  intros Hk Hle Hgt. split; [|apply idlePolls_sleeps].
  rewrite waitABlock_unfold.
  rewrite (waitLoop_trace heights (k - 1)).
  - rewrite reads_getHeight. simpl. rewrite <- !app_assoc. simpl.
    replace (S (reads st + (k - 1))) with (reads st + k) by lia.
    do 2 f_equal. lia.
  - lia.
  - intros j Hj. rewrite reads_getHeight.
    replace (S (reads st) + j) with (reads st + S j) by lia. apply Hle. lia.
  - rewrite reads_getHeight.
    by replace (S (reads st) + (k - 1)) with (reads st + k) by lia.
Qed.

Lemma waitABlock_trace_witness :
  waitABlock (Sample.heightsOf [7; 7; 6; 9]%Z) 10 initState =
    ({| contractAbiInfo := ∅; heap := ∅;
        trace := [EvGetHeight 7; EvGetHeight 7; EvSleep 1000;
                  EvGetHeight 6; EvSleep 1000; EvGetHeight 9];
        reads := 4 |}, Some tt).
Proof.
  apply (waitABlock_trace (Sample.heightsOf [7; 7; 6; 9]%Z) 3 10 initState).
  - lia.
  - intros j Hj. simpl in *.
    assert (j = 1 ∨ j = 2) as [-> | ->] by lia; by vm_compute.
  - by vm_compute.
Defined.

(** ** installSmartContract as a whole *)

Lemma waitABlock_frame (heights : nat → Z) fuel st :
  contractAbiInfo (fst (waitABlock heights fuel st)) = contractAbiInfo st ∧
  heap (fst (waitABlock heights fuel st)) = heap st.
Proof.
  rewrite waitABlock_unfold.
  by destruct (waitLoop_frame heights fuel (heights (reads st))
                 (fst (getHeight heights st))) as [-> ->].
Qed.

Lemma lookupAbi_frame (st st' : State) name :
  contractAbiInfo st' = contractAbiInfo st → heap st' = heap st →
  lookupAbi st' name = lookupAbi st name.
Proof. intros Hr Hh. unfold lookupAbi. by rewrite Hr, Hh. Qed.

Lemma forEach_deployItem_lookup_other `{sdk : OntSdk}
    (files : gmap string string) (this : Ontology) items name a st st' res :
  name ∉ item_name <$> items →
  lookupAbi st name = Some a →
  forEach (deployItem files this) items st = (st', res) →
  lookupAbi st' name = Some a.
Proof.
  revert st. induction items as [|item items IH]; intros st Hn Ha; simpl.
  - by intros [= <- <-].
  - rewrite fmap_cons, not_elem_of_cons in Hn. destruct Hn as [Hne Hn].
    rewrite bind_unfold.
    destruct (deployItem files this item st) as [st1 [[]|e]] eqn:E.
    + apply IH; [done|]. by eapply deployItem_lookup_other.
    + intros [= <- <-]. by eapply deployItem_lookup_other.
Qed.

Section Install.
Context `{sdk : OntSdk}.
Variable files : gmap string string.
Variable heights : nat → Z.

(** X4 — a missing bytecode file stops the deploy at that item: the items
    before it have been signed, posted and logged, nothing is signed or
    posted for it or for the items after it, no height is read, and the
    promise of [installSmartContract] is rejected with the file error. *)
Theorem install_stops_at_missing_bytecode fuel (this : Ontology)
    pre item post st :
  contractConfig this = pre ++ item :: post →
  Forall (deployable files) pre →
  files !! item_path item = None →
  ∃ st',
    installSmartContract files heights fuel this st
      = (st', Some (Thrown (LibError "ENOENT: no such file or directory"))) ∧
    reads st' = reads st ∧
    trace st' =
      trace st ++
      (pre ≫= λ i, deployEvents this i (default "" (files !! item_path i))).
Proof.
  intros Hcfg Hpre Hnone. unfold installSmartContract.
  rewrite Hcfg, forEach_app.
  destruct (forEach_deployItem_run files this pre st Hpre)
    as (st1 & -> & Hr & Ht).
  simpl. rewrite bind_unfold, deployItem_no_code by done.
  by exists st1.
Qed.

(** X5 — the ABI file is read after the deploy transaction has been
    posted: when it is missing or does not parse, the transaction is already
    with the transport, yet nothing is registered (registry and store are
    as before, no 'deploy' line is logged), so an invocation of that name
    still raises 'the contract doesn't deploy!'. *)
Theorem deploy_posts_before_registering (this : Ontology) item code st :
  files !! item_path item = Some code →
  files !! item_abi item = None ∨
    (∃ text e, files !! item_abi item = Some text ∧ parseJson text = Thrown e) →
  ∃ e,
    deployItem files this item st
      = (withTrace [EvSign; EvPostTx (serialize (deployTx this item code))] st,
         Thrown e) ∧
    ∀ context contractVer args timeout,
      contractAbiInfo st !! item_name item = None →
      snd (invokeSmartContract this context (item_name item) contractVer args
             timeout
             (withTrace [EvSign; EvPostTx (serialize (deployTx this item code))]
                st))
        = Thrown (JsError "the contract doesn't deploy!").
Proof.
  intros Hcode Habi.
  assert (∃ e, deployItem files this item st
                 = (withTrace [EvSign;
                               EvPostTx (serialize (deployTx this item code))] st,
                    Thrown e)) as [e He].
  { destruct Habi as [Habi|(text & e & Habi & Hparse)].
    - eexists. by apply deployItem_no_abi.
    - exists e. by eapply deployItem_bad_abi. }
  exists e. split; [exact He|].
  intros context contractVer args timeout Hreg.
  unfold invokeSmartContract. rewrite bind_unfold. unfold registryGet.
  simpl. by rewrite Hreg.
Qed.

(** X6 — when the promise of [installSmartContract] is fulfilled, every
    configured contract name is registered with an ABI description that
    carries its bytecode, and a height above the baseline reading has been
    read: the deploy does not complete before the chain has advanced. *)
Theorem install_registers_all_and_waits fuel (this : Ontology) st st' v :
  installSmartContract files heights fuel this st = (st', Some (Ok v)) →
  (∀ item, item ∈ contractConfig this →
     ∃ a, lookupAbi st' (item_name item) = Some a ∧ hasCode a) ∧
  ∃ k, 1 ≤ k ≤ fuel ∧
       (heights (reads st) < heights (reads st + k)%nat)%Z.
Proof.
  unfold installSmartContract.
  destruct (forEach (deployItem files this) (contractConfig this) st)
    as [st1 [[]|e]] eqn:E; [|discriminate].
  destruct (waitABlock heights fuel st1) as [st2 [[]|]] eqn:W; [|discriminate].
  intros [= <- _].
  destruct (forEach_deployItem_Ok files this _ _ _ E) as [Hr Hall].
  split.
  - intros item Hin. destruct (Hall item Hin) as (a & Ha & Hc).
    exists a. split; [|done]. rewrite <- Ha.
    destruct (waitABlock_frame heights fuel st1) as [H1 H2].
    rewrite W in H1, H2. by apply lookupAbi_frame.
  - rewrite waitABlock_unfold in W.
    apply waitLoop_Some_inv in W as (j & Hj & Hgt).
    rewrite reads_getHeight, Hr in Hgt.
    exists (S j). split; [lia|].
    by replace (reads st + S j) with (S (reads st) + j) by lia.
Qed.

(** X7 — a deploy from start to end: when every configured item has its
    two files and its ABI file parses, and the k-th reading after the
    baseline is the first above it, [installSmartContract] is fulfilled with
    [undefined]; its calls are, in order, one signature, one post and one
    log line per item in configuration order, then the baseline reading, the
    k-1 idle polls with their sleeps, and the reading that advanced. *)
Theorem install_end_to_end fuel (this : Ontology) st k :
  Forall (deployable files) (contractConfig this) →
  1 ≤ k ≤ fuel →
  (∀ j, 1 ≤ j < k →
        (heights (reads st + j)%nat ≤ heights (reads st))%Z) →
  (heights (reads st) < heights (reads st + k)%nat)%Z →
  ∃ st',
    installSmartContract files heights fuel this st = (st', Some (Ok JUndefined)) ∧
    reads st' = reads st + 1 + k ∧
    trace st' =
      trace st ++
      (contractConfig this ≫= λ i,
         deployEvents this i (default "" (files !! item_path i))) ++
      EvGetHeight (heights (reads st))
        :: idlePolls heights (S (reads st)) (k - 1)
        ++ [EvGetHeight (heights (reads st + k)%nat)].
Proof.
  intros Hall Hk Hle Hgt. unfold installSmartContract.
  destruct (forEach_deployItem_run files this _ st Hall)
    as (st1 & -> & Hr & Ht).
  rewrite waitABlock_unfold, (waitLoop_trace heights (k - 1)).
  - eexists. split; [reflexivity|]. simpl. rewrite Hr, Ht. split; [lia|].
    rewrite <- !app_assoc. simpl.
    by replace (S (reads st + (k - 1))) with (reads st + k) by lia.
  - lia.
  - intros j Hj. rewrite reads_getHeight, Hr.
    replace (S (reads st) + j) with (reads st + S j) by lia. apply Hle. lia.
  - rewrite reads_getHeight, Hr.
    by replace (S (reads st) + (k - 1)) with (reads st + k) by lia.
Qed.

(** X8 — a deploy leaves the contracts registered under other names as
    they are: a name that is not in the configuration leads to the same ABI
    description and bytecode after [installSmartContract], however the
    deploy ends. *)
Theorem install_keeps_other_contracts fuel (this : Ontology) name a st :
  name ∉ item_name <$> contractConfig this →
  lookupAbi st name = Some a →
  lookupAbi (fst (installSmartContract files heights fuel this st)) name
    = Some a.
Proof.
  intros Hn Ha. unfold installSmartContract.
  destruct (forEach (deployItem files this) (contractConfig this) st)
    as [st1 [[]|e]] eqn:E.
  - assert (H1 : lookupAbi st1 name = Some a)
      by (by eapply forEach_deployItem_lookup_other).
    destruct (waitABlock_frame heights fuel st1) as [Hr Hh].
    destruct (waitABlock heights fuel st1) as [st2 [[]|]]; simpl in *;
      rewrite <- H1; by apply lookupAbi_frame.
  - simpl. by eapply forEach_deployItem_lookup_other.
Qed.

End Install.

Lemma token_deployable :
  deployable (sdk := Sample.sdk) Sample.files Sample.token.
Proof.
  split; [by eexists|]. exists "token-abi". eexists. by split.
Qed.

Lemma coin_deployable :
  deployable (sdk := Sample.sdk) Sample.files Scenario.coin.
Proof.
  split; [by eexists|]. exists "token-abi-v2". eexists. by split.
Qed.

Lemma install_stops_at_missing_bytecode_witness :
  ∃ st',
    installSmartContract (sdk := Sample.sdk) Sample.files
      (Sample.heightsOf [10; 11]%Z) 5
      (Scenario.adapter [Sample.token; Scenario.ghost; Scenario.coin]) initState
      = (st', Some (Thrown (LibError "ENOENT: no such file or directory"))) ∧
    reads st' = 0 ∧
    trace st' =
      [EvSign; EvPostTx "raw(deploy:Token:00c56b#sk:9d1e)";
       EvLog ["deploy"; "rev:hash(deploy:Token:00c56b#sk:9d1e)"]].
Proof.
  apply (install_stops_at_missing_bytecode (sdk := Sample.sdk) Sample.files
           (Sample.heightsOf [10; 11]%Z) 5
           (Scenario.adapter [Sample.token; Scenario.ghost; Scenario.coin])
           [Sample.token] Scenario.ghost [Scenario.coin] initState).
  - reflexivity.
  - constructor; [apply token_deployable|constructor].
  - reflexivity.
Defined.

Lemma deploy_posts_before_registering_witness :
  ∃ e,
    deployItem (sdk := Sample.sdk) Sample.files Sample.this Scenario.noAbi
      initState
      = (withTrace [EvSign; EvPostTx "raw(deploy:Coin:00c56b#sk:9d1e)"]
           initState, Thrown e) ∧
    ∀ context contractVer args timeout,
      contractAbiInfo initState !! "Coin" = None →
      snd (invokeSmartContract (sdk := Sample.sdk) Sample.this context "Coin"
             contractVer args timeout
             (withTrace [EvSign; EvPostTx "raw(deploy:Coin:00c56b#sk:9d1e)"]
                initState))
        = Thrown (JsError "the contract doesn't deploy!").
Proof.
  apply (deploy_posts_before_registering (sdk := Sample.sdk) Sample.files
           Sample.this Scenario.noAbi "00c56b" initState).
  - reflexivity.
  - left. reflexivity.
Defined.

Lemma install_registers_all_and_waits_witness :
  (∀ item, item ∈ [Sample.token] →
     ∃ a, lookupAbi Sample.deployed (item_name item) = Some a ∧ hasCode a) ∧
  ∃ k, 1 ≤ k ≤ 1 ∧
       (Sample.heightsOf [10; 11]%Z 0 < Sample.heightsOf [10; 11]%Z (0 + k))%Z.
Proof.
  apply (install_registers_all_and_waits (sdk := Sample.sdk) Sample.files
           (Sample.heightsOf [10; 11]%Z) 1 Sample.this initState
           Sample.deployed JUndefined).
  by vm_compute.
Defined.

Lemma install_end_to_end_witness :
  ∃ st',
    installSmartContract (sdk := Sample.sdk) Sample.files
      (Sample.heightsOf [10; 10; 11]%Z) 4 Sample.this initState
      = (st', Some (Ok JUndefined)) ∧
    reads st' = 3 ∧
    trace st' =
      [EvSign; EvPostTx "raw(deploy:Token:00c56b#sk:9d1e)";
       EvLog ["deploy"; "rev:hash(deploy:Token:00c56b#sk:9d1e)"];
       EvGetHeight 10; EvGetHeight 10; EvSleep 1000; EvGetHeight 11].
Proof.
  apply (install_end_to_end (sdk := Sample.sdk) Sample.files
           (Sample.heightsOf [10; 10; 11]%Z) 4 Sample.this initState 2).
  - constructor; [apply token_deployable|constructor].
  - lia.
  - intros j Hj. simpl in *. assert (j = 1) as -> by lia. by vm_compute.
  - by vm_compute.
Defined.

Lemma install_keeps_other_contracts_witness :
  lookupAbi
    (fst (installSmartContract (sdk := Sample.sdk) Sample.files
            (Sample.heightsOf [11; 12]%Z) 1 (Scenario.adapter [Scenario.coin])
            Sample.deployed)) "Token"
    = Some Sample.tokenAbi.
Proof.
  apply (install_keeps_other_contracts (sdk := Sample.sdk)).
  - intros Hin. apply list_elem_of_In in Hin. simpl in Hin.
    destruct Hin as [Hin|[]]. discriminate.
  - by vm_compute.
Defined.

(** ** Binding the arguments *)

Lemma withHeap_id (st : State) : withHeap (heap st) st = st.
Proof. by destruct st. Qed.

Lemma withParameters_id (f : AbiFunction) : withParameters (f_parameters f) f = f.
Proof. by destruct f. Qed.

Lemma readAbiInfo_run (l : loc) (a : AbiInfo) (st : State) :
  heap st !! l = Some (OAbiInfo a) → readAbiInfo l st = (st, Ok a).
Proof. intros H. unfold readAbiInfo. by rewrite H. Qed.

Lemma readAbiFunction_run (l : loc) (f : AbiFunction) (st : State) :
  heap st !! l = Some (OAbiFunction f) → readAbiFunction l st = (st, Ok f).
Proof. intros H. unfold readAbiFunction. by rewrite H. Qed.

Lemma bindStep_length (l : list jsval) (ps : list AbiParameter) (i : nat) :
  length (bindStep l ps i) = length ps.
Proof. unfold bindStep. destruct (ps !! i); [apply length_fmap|done]. Qed.

(** One iteration on a descriptor that has a parameter at index [i]. *)
Lemma bindArg_run (af : loc) (args : Args) (l : list jsval) (i : nat)
    (f : AbiFunction) (st : State) :
  a_args args = Some l →
  heap st !! af = Some (OAbiFunction f) →
  i < length (f_parameters f) →
  bindArg af args i st =
  (withHeap (<[af := OAbiFunction
                       (withParameters (bindStep l (f_parameters f) i) f)]>
               (heap st)) st, Ok tt).
Proof.
  intros Hargs Hf Hi. unfold bindArg.
  rewrite bind_unfold, (readAbiFunction_run af f) by done.
  destruct (lookup_lt_is_Some_2 (f_parameters f) i Hi) as [q Hq].
  unfold bindStep. rewrite Hq.
  rewrite bind_unfold. unfold args_at. rewrite Hargs.
  unfold setParamsValue.
  unfold ret. cbv beta iota.
  by rewrite bind_unfold, (readAbiFunction_run af f) by done.
Qed.

Lemma forEach_bindArg_run (af : loc) (args : Args) (l : list jsval)
    (idx : list nat) (f : AbiFunction) (st : State) :
  a_args args = Some l →
  heap st !! af = Some (OAbiFunction f) →
  Forall (λ i, i < length (f_parameters f)) idx →
  forEach (bindArg af args) idx st =
  (withHeap (<[af := OAbiFunction
                       (withParameters (foldl (bindStep l) (f_parameters f) idx)
                          f)]> (heap st)) st, Ok tt).
Proof.
  intros Hargs. revert f st.
  induction idx as [|i idx IH]; intros f st Hf Hall.
  - simpl. by rewrite withParameters_id, insert_id, withHeap_id.
  - apply Forall_cons in Hall as [Hi Hall].
    cbn [forEach foldl]. rewrite bind_unfold.
    rewrite (bindArg_run af args l i f st) by done.
    rewrite (IH (withParameters (bindStep l (f_parameters f) i) f)).
    + unfold withHeap. simpl. by rewrite insert_insert_eq.
    + simpl. by rewrite lookup_insert_eq.
    + simpl. rewrite bindStep_length. exact Hall.
Qed.

(** The whole loop, for an argument list that is there, or for a function
    without parameters. *)
Lemma bindArgs_run (af : loc) (args : Args) (f : AbiFunction) (st : State) :
  heap st !! af = Some (OAbiFunction f) →
  is_Some (a_args args) ∨ f_parameters f = [] →
  bindArgs af args st =
  (withHeap (<[af := OAbiFunction
                       (withParameters
                          (bindAll (default [] (a_args args)) (f_parameters f))
                          f)]> (heap st)) st, Ok tt).
Proof.
  intros Hf Hargs. unfold bindArgs.
  rewrite bind_unfold, (readAbiFunction_run af f) by done.
  destruct (a_args args) as [l|] eqn:El.
  - apply (forEach_bindArg_run af args l); [done..|].
    apply Forall_forall. intros i Hi. apply elem_of_seq in Hi. lia.
  - destruct Hargs as [[l' Hl]|Hnil]; [discriminate|].
    unfold bindAll. rewrite Hnil. simpl.
    rewrite <- Hnil, withParameters_id, insert_id by done.
    by rewrite withHeap_id.
Qed.

(** Without [args.args] the first iteration raises. *)
Lemma bindArgs_no_args (af : loc) (args : Args) (f : AbiFunction) (st : State) :
  heap st !! af = Some (OAbiFunction f) →
  a_args args = None → f_parameters f ≠ [] →
  bindArgs af args st
    = (st, Thrown (TypeError "Cannot read property of undefined")).
Proof.
  intros Hf Hargs Hne. unfold bindArgs.
  rewrite bind_unfold, (readAbiFunction_run af f) by done.
  destruct (f_parameters f) as [|q ps] eqn:Ep; [done|].
  cbn [length seq forEach]. rewrite bind_unfold. unfold bindArg.
  rewrite bind_unfold, (readAbiFunction_run af f) by done.
  rewrite Ep. simpl. unfold args_at. by rewrite Hargs.
Qed.

(** ** The ways an invocation can go *)

Section Invoke.
Context `{sdk : OntSdk}.

Lemma hasOwnProperty_func_Some (args : Args) (name : jsval) :
  a_func args = Some name →
  hasOwnProperty_func args = true ∧ args_func args = name.
Proof.
  intros H. unfold hasOwnProperty_func, args_func. rewrite H.
  split; [|done]. by apply bool_decide_eq_true.
Qed.

(** The state after [getFunction] has handed out the descriptor. *)
Lemma getFunction_found (abiInfo : loc) (name : jsval) a f st :
  heap st !! abiInfo = Some (OAbiInfo a) →
  findFunction name (functions a) = Some f →
  getFunction abiInfo name st =
  (withHeap (<[fresh (dom (heap st)) := OAbiFunction f]> (heap st)) st,
   Ok (Some (fresh (dom (heap st))))).
Proof.
  intros Ha Hf. unfold getFunction.
  rewrite bind_unfold, (readAbiInfo_run abiInfo a) by done.
  by rewrite Hf.
Qed.

Lemma fresh_ne (st : State) (l : loc) (o : Obj) :
  heap st !! l = Some o → l ≠ fresh (dom (heap st)).
Proof.
  intros H ->. apply (is_fresh (dom (heap st))). apply elem_of_dom. by eexists.
Qed.

(** An invocation that goes through, in full. *)
Lemma invokeSmartContract_run (this : Ontology)
    context contractID contractVer args timeout st a name f :
  lookupAbi st contractID = Some a →
  a_func args = Some name →
  findFunction name (functions a) = Some f →
  is_Some (a_args args) ∨ f_parameters f = [] →
  let bound :=
    withParameters (bindAll (default [] (a_args args)) (f_parameters f)) f in
  let tx := invokeTx this bound a in
  invokeSmartContract this context contractID contractVer args timeout st =
  (withTrace [EvSign; EvLog ["invoke"; reverseHex (getHash tx)];
              EvPostTx (serialize tx)]
     (withHeap (<[fresh (dom (heap st)) := OAbiFunction bound]> (heap st)) st),
   Ok (posted (newTxStatus (reverseHex (getHash tx))))).
Proof.
  intros (abiInfo & Hreg & Ha)%lookupAbi_Some Hfunc Hfind Hargs bound tx.
  destruct (hasOwnProperty_func_Some args name Hfunc) as [Hown Hname].
  unfold invokeSmartContract.
  rewrite bind_unfold. unfold registryGet. rewrite Hreg. cbv beta iota.
  rewrite bind_unfold, Hname, (getFunction_found abiInfo name a f) by done.
  rewrite Hown. cbv beta iota.
  rewrite bind_unfold, (bindArgs_run _ args f)
    by (done || (simpl; by rewrite lookup_insert_eq)).
  cbv beta iota.
  rewrite bind_unfold, (readAbiFunction_run _ bound)
    by (simpl; by rewrite lookup_insert_eq).
  cbv beta iota.
  rewrite bind_unfold, (readAbiInfo_run abiInfo a).
  2:{ simpl. rewrite !lookup_insert_ne by (symmetry; by eapply fresh_ne). done. }
  unfold withTrace, withHeap, sign, log, postTx_then, emit, posted,
    mbind, M_bind, bind, ret. simpl.
  by rewrite insert_insert_eq, <- !app_assoc.
Qed.

(** With parameters to bind and no [args.args], the loop raises. *)
Lemma invokeSmartContract_no_args (this : Ontology)
    context contractID contractVer args timeout st a name f :
  lookupAbi st contractID = Some a →
  a_func args = Some name →
  findFunction name (functions a) = Some f →
  a_args args = None → f_parameters f ≠ [] →
  invokeSmartContract this context contractID contractVer args timeout st =
  (withHeap (<[fresh (dom (heap st)) := OAbiFunction f]> (heap st)) st,
   Thrown (TypeError "Cannot read property of undefined")).
Proof.
  intros (abiInfo & Hreg & Ha)%lookupAbi_Some Hfunc Hfind Hargs Hne.
  destruct (hasOwnProperty_func_Some args name Hfunc) as [Hown Hname].
  unfold invokeSmartContract.
  rewrite bind_unfold. unfold registryGet. rewrite Hreg. cbv beta iota.
  rewrite bind_unfold, Hname, (getFunction_found abiInfo name a f) by done.
  rewrite Hown. cbv beta iota.
  by rewrite bind_unfold, (bindArgs_no_args _ args f)
    by (done || (simpl; by rewrite lookup_insert_eq)).
Qed.

(** No ABI description under the name: one of two errors, nothing done. *)
Lemma invokeSmartContract_no_abi (this : Ontology)
    context contractID contractVer args timeout st :
  lookupAbi st contractID = None →
  ∃ e, invokeSmartContract this context contractID contractVer args timeout st
       = (st, Thrown e).
Proof.
  intros H. unfold invokeSmartContract, lookupAbi in *.
  rewrite bind_unfold. unfold registryGet.
  destruct (contractAbiInfo st !! contractID) as [l|]; [|by eexists].
  cbv beta iota. rewrite bind_unfold. unfold getFunction.
  rewrite bind_unfold. unfold readAbiInfo.
  destruct (heap st !! l) as [[a|f|]|]; [discriminate|by eexists..].
Qed.

End Invoke.

(** ** Binding by name is binding by position *)

(** With distinct parameter names, one step writes one slot. *)
Lemma bindStep_insert (l : list jsval) (ps : list AbiParameter) i q :
  NoDup (p_name <$> ps) → ps !! i = Some q →
  bindStep l ps i = <[i := bindOne l i q]> ps.
Proof.
  intros Hnd Hq. unfold bindStep. rewrite Hq.
  apply list_eq. intros j. rewrite list_lookup_fmap.
  destruct (decide (i = j)) as [<-|Hne].
  - rewrite list_lookup_insert_eq by (by eapply lookup_lt_Some).
    rewrite Hq. simpl. unfold setValue, bindOne. simpl.
    rewrite !String.eqb_refl. simpl.
    by destruct (isNullish (default JUndefined (l !! i))).
  - rewrite list_lookup_insert_ne by done.
    destruct (ps !! j) as [q'|] eqn:Hq'; [|done]. simpl. f_equal.
    unfold setValue. simpl.
    destruct (String.eqb_spec (p_name q') (p_name q)) as [Heq|]; [|done].
    exfalso. apply Hne.
    apply (NoDup_lookup (p_name <$> ps) i j (p_name q)); [done|..];
      rewrite list_lookup_fmap; [by rewrite Hq|rewrite Hq'; simpl; by rewrite Heq].
Qed.

Lemma boundBelow_names (l : list jsval) k ps :
  p_name <$> boundBelow l k ps = p_name <$> ps.
Proof.
  apply list_eq. intros j. unfold boundBelow.
  rewrite !list_lookup_fmap, list_lookup_imap.
  destruct (ps !! j) as [q|]; [|done]. simpl.
  destruct (decide (j < k)); [|done]. unfold bindOne.
  by destruct (isNullish (default JUndefined (l !! j))).
Qed.

Lemma foldl_bindStep_below (l : list jsval) (ps : list AbiParameter) k :
  NoDup (p_name <$> ps) → k ≤ length ps →
  foldl (bindStep l) ps (seq 0 k) = boundBelow l k ps.
Proof.
  intros Hnd. induction k as [|k IH]; intros Hk.
  - simpl. unfold boundBelow. apply list_eq. intros j.
    rewrite list_lookup_imap. destruct (ps !! j); [|done]. simpl.
    destruct (decide (j < 0)); [lia|done].
  - rewrite seq_S, foldl_app, IH by lia. simpl.
    destruct (lookup_lt_is_Some_2 ps k ltac:(lia)) as [q Hq].
    rewrite (bindStep_insert l _ k q).
    + apply list_eq. intros j. unfold boundBelow.
      destruct (decide (k = j)) as [<-|Hne].
      * rewrite list_lookup_insert_eq
          by (rewrite length_imap; lia).
        rewrite list_lookup_imap, Hq. simpl.
        destruct (decide (k < S k)); [done|lia].
      * rewrite list_lookup_insert_ne by done.
        rewrite !list_lookup_imap. destruct (ps !! j); [|done]. simpl.
        destruct (decide (j < k)), (decide (j < S k)); try done; lia.
    + by rewrite boundBelow_names.
    + unfold boundBelow. rewrite list_lookup_imap, Hq. simpl.
      destruct (decide (k < k)); [lia|done].
Qed.

Lemma bindAll_positional (l : list jsval) (ps : list AbiParameter) :
  NoDup (p_name <$> ps) → bindAll l ps = bindPositional l ps.
Proof.
  intros Hnd. unfold bindAll. rewrite foldl_bindStep_below by done.
  unfold boundBelow, bindPositional. apply list_eq. intros j.
  rewrite !list_lookup_imap. destruct (ps !! j) as [q|] eqn:Hq; [|done].
  simpl. apply lookup_lt_Some in Hq.
  by destruct (decide (j < length ps)); [|lia].
Qed.

(** Only the arguments at the indices of the parameters are read. *)
Lemma foldl_bindStep_app (l extra : list jsval) (idx : list nat) ps :
  Forall (λ i, i < length l) idx →
  foldl (bindStep (l ++ extra)) ps idx = foldl (bindStep l) ps idx.
Proof.
  intros Hall. revert ps. induction Hall as [|i idx Hi _ IH]; intros ps; [done|].
  simpl. rewrite IH. f_equal. unfold bindStep.
  by rewrite lookup_app_l.
Qed.

Lemma bindAll_app (l extra : list jsval) (ps : list AbiParameter) :
  length ps ≤ length l → bindAll (l ++ extra) ps = bindAll l ps.
Proof.
  intros Hlen. unfold bindAll. apply foldl_bindStep_app.
  apply Forall_forall. intros i Hi. apply elem_of_seq in Hi. lia.
Qed.

(** ** Invocations that reach the transport, and those that do not *)

Section InvokeOutcomes.
Context `{sdk : OntSdk}.

(** X9 — a call of a declared function that has parameters, made with an
    argument object without [args]: the loop raises a TypeError on its first
    iteration.  The descriptor has been allocated, nothing has been signed,
    logged or posted, and the registered ABI description reads as before. *)
Theorem invoke_without_args_raises (this : Ontology)
    context contractID contractVer args timeout st a name f :
  lookupAbi st contractID = Some a →
  a_func args = Some name →
  findFunction name (functions a) = Some f →
  a_args args = None → f_parameters f ≠ [] →
  ∃ st1 msg,
    invokeSmartContract this context contractID contractVer args timeout st
      = (st1, Thrown (TypeError msg)) ∧
    trace st1 = trace st ∧
    contractAbiInfo st1 = contractAbiInfo st ∧
    lookupAbi st1 contractID = Some a.
Proof.
  intros Ha Hfunc Hfind Hargs Hne.
  eexists _, _. split; [by eapply invokeSmartContract_no_args|].
  split; [done|]. split; [done|].
  apply lookupAbi_Some in Ha as (abiInfo & Hreg & Hheap).
  apply lookupAbi_Some. exists abiInfo. simpl. split; [done|].
  rewrite lookup_insert_ne; [done|]. symmetry. by eapply fresh_ne.
Qed.

(** X10 — [invokeSmartContract] returns a promise exactly when the
    contract name leads to an ABI description, the argument object has a
    [func] that the description declares, and [args.args] is there or the
    function has no parameter.  The number of arguments is not checked:
    a list that is too short or too long is accepted. *)
Theorem invoke_returns_promise_iff (this : Ontology)
    context contractID contractVer args timeout st :
  (∃ st1 pr,
     invokeSmartContract this context contractID contractVer args timeout st
       = (st1, Ok pr)) ↔
  (∃ a name f,
     lookupAbi st contractID = Some a ∧
     a_func args = Some name ∧
     findFunction name (functions a) = Some f ∧
     (is_Some (a_args args) ∨ f_parameters f = [])).
Proof.
  split.
  - intros (st1 & pr & H).
    destruct (lookupAbi st contractID) as [a|] eqn:Ha.
    2:{ destruct (invokeSmartContract_no_abi this context contractID
                    contractVer args timeout st Ha) as [e He].
        rewrite He in H. discriminate. }
    destruct (findFunction (args_func args) (functions a)) as [f|] eqn:Hf.
    2:{ rewrite (invokeSmartContract_undeclared this _ _ _ _ _ st a) in H
          by done. by destruct getFunctionMissing. }
    destruct (a_func args) as [name|] eqn:Hfunc.
    2:{ unfold args_func in Hf. rewrite Hfunc in Hf. discriminate. }
    assert (Hname : args_func args = name)
      by (unfold args_func; by rewrite Hfunc).
    rewrite Hname in Hf.
    exists a, name, f. repeat split; try done.
    destruct (a_args args) as [l|] eqn:Hargs; [left; by eexists|right].
    destruct (f_parameters f) as [|q ps] eqn:Hps; [done|].
    rewrite (invokeSmartContract_no_args this _ _ _ _ _ st a name f) in H;
      [discriminate|done..|]. by rewrite Hps.
  - intros (a & name & f & Ha & Hfunc & Hf & Hargs).
    eexists _, _. by eapply invokeSmartContract_run.
Qed.

(** X11 — what an invocation that goes through does, for a function whose
    parameter names are distinct (the descriptor binds by name): the i-th
    declared parameter is bound to [args.args[i]] when that is a value, and
    keeps the value it was declared with when [args.args[i]] is [undefined]
    (the list is too short) or [null]; the invoke transaction is built from
    the function name, these parameters, the address derived from the
    registered bytecode, gas price '0', gas limit '20000000' and the
    account's address, and signed with the private key.  The calls are one
    signature, the 'invoke' log line and the post of that transaction, and
    the status of the returned promise carries its reversed hash. *)
Theorem invoke_posts_bound_call (this : Ontology)
    context contractID contractVer args timeout st a name f l :
  lookupAbi st contractID = Some a →
  a_func args = Some name →
  findFunction name (functions a) = Some f →
  a_args args = Some l →
  NoDup (p_name <$> f_parameters f) →
  let bound := withParameters (bindPositional l (f_parameters f)) f in
  let tx :=
    signTransaction
      (makeInvokeTransaction (f_name f) (bindPositional l (f_parameters f))
         (fromVmCode (vmCode a)) "0" "20000000" (address (account this)))
      (privateKey this) in
  ∃ st1,
    invokeSmartContract this context contractID contractVer args timeout st
      = (st1, Ok (posted (newTxStatus (reverseHex (getHash tx))))) ∧
    trace st1 = trace st ++ [EvSign; EvLog ["invoke"; reverseHex (getHash tx)];
                             EvPostTx (serialize tx)] ∧
    heap st1 = <[fresh (dom (heap st)) := OAbiFunction bound]> (heap st) ∧
    contractAbiInfo st1 = contractAbiInfo st.
Proof.
  intros Ha Hfunc Hf Hargs Hnd bound tx.
  rewrite (invokeSmartContract_run this _ _ _ _ _ st a name f)
    by (done || (left; by eexists)).
  rewrite Hargs. cbn [default]. rewrite bindAll_positional by done.
  eexists. split; [reflexivity|]. by repeat split.
Qed.

(** X12 — arguments past the last declared parameter are never read: with
    at least as many arguments as parameters, adding more changes neither
    the outcome of the call nor the state it leaves. *)
Theorem invoke_ignores_surplus_arguments (this : Ontology)
    context contractID contractVer func timeout st a name f l extra :
  lookupAbi st contractID = Some a →
  func = Some name →
  findFunction name (functions a) = Some f →
  length (f_parameters f) ≤ length l →
  invokeSmartContract this context contractID contractVer
    {| a_func := func; a_args := Some (l ++ extra) |} timeout st
  = invokeSmartContract this context contractID contractVer
      {| a_func := func; a_args := Some l |} timeout st.
Proof.
  intros Ha Hfunc Hf Hlen.
  rewrite (invokeSmartContract_run this _ _ _ _ _ st a name f)
    by (done || (left; by eexists)).
  rewrite (invokeSmartContract_run this _ _ _
             {| a_func := func; a_args := Some l |} _ st a name f)
    by (done || (left; by eexists)).
  simpl. by rewrite bindAll_app.
Qed.

End InvokeOutcomes.

Lemma invoke_without_args_raises_witness :
  ∃ st1 msg,
    invokeSmartContract (sdk := Sample.sdk) Sample.this JNull "Token" JNull
      {| a_func := Some (JStr "transfer"); a_args := None |} JNull
      Sample.deployed
      = (st1, Thrown (TypeError msg)) ∧
    trace st1 = trace Sample.deployed ∧
    contractAbiInfo st1 = contractAbiInfo Sample.deployed ∧
    lookupAbi st1 "Token" = Some Sample.tokenAbi.
Proof.
  apply (invoke_without_args_raises (sdk := Sample.sdk) Sample.this JNull
           "Token" JNull _ JNull Sample.deployed Sample.tokenAbi
           (JStr "transfer") Scenario.transferDecl).
  - by vm_compute.
  - reflexivity.
  - reflexivity.
  - reflexivity.
  - discriminate.
Defined.

Lemma invoke_returns_promise_iff_witness :
  ∃ st1 pr,
    invokeSmartContract (sdk := Sample.sdk) Sample.this JNull "Token" JNull
      {| a_func := Some (JStr "transfer"); a_args := Some [] |} JNull
      Sample.deployed
      = (st1, Ok pr).
Proof.
  apply (invoke_returns_promise_iff (sdk := Sample.sdk)).
  exists Sample.tokenAbi, (JStr "transfer"), Scenario.transferDecl.
  split; [by vm_compute|]. split; [reflexivity|]. split; [reflexivity|].
  left. by eexists.
Defined.

Lemma invoke_posts_bound_call_witness :
  let bound :=
    OAbiFunction
      {| f_name := "transfer"; f_returntype := "Bool";
         f_parameters :=
           [ {| p_name := "to"; p_type := "ByteArray";
                p_value := JStr "AQf4Mzu1" |};
             {| p_name := "amount"; p_type := "Integer";
                p_value := JStr "" |} ] |} in
  let outcome := λ l : list jsval,
    ∃ st1,
      invokeSmartContract (sdk := Sample.sdk) Sample.this JNull "Token" JNull
        {| a_func := Some (JStr "transfer"); a_args := Some l |}
        JNull Sample.deployed
        = (st1, Ok (posted (newTxStatus
                              "rev:hash(invoke:transfer@addr:00c56b#sk:9d1e)"))) ∧
      trace st1 =
        trace Sample.deployed ++
        [EvSign;
         EvLog ["invoke"; "rev:hash(invoke:transfer@addr:00c56b#sk:9d1e)"];
         EvPostTx "raw(invoke:transfer@addr:00c56b#sk:9d1e)"] ∧
      heap st1 = <[fresh (dom (heap Sample.deployed)) := bound]>
                   (heap Sample.deployed) ∧
      contractAbiInfo st1 = contractAbiInfo Sample.deployed in
  outcome [JStr "AQf4Mzu1"] ∧ outcome [JStr "AQf4Mzu1"; JNull].
Proof.
  intros bound outcome.
  assert (Hnd : NoDup (p_name <$> f_parameters Scenario.transferDecl)).
  { simpl. apply NoDup_cons. split; [|apply NoDup_singleton].
    intros Hin. apply list_elem_of_In in Hin. simpl in Hin.
    destruct Hin as [Hin|[]]. discriminate. }
  split.
  - apply (invoke_posts_bound_call (sdk := Sample.sdk) Sample.this JNull
             "Token" JNull _ JNull Sample.deployed Sample.tokenAbi
             (JStr "transfer") Scenario.transferDecl [JStr "AQf4Mzu1"]);
      [by vm_compute|reflexivity..|exact Hnd].
  - apply (invoke_posts_bound_call (sdk := Sample.sdk) Sample.this JNull
             "Token" JNull _ JNull Sample.deployed Sample.tokenAbi
             (JStr "transfer") Scenario.transferDecl [JStr "AQf4Mzu1"; JNull]);
      [by vm_compute|reflexivity..|exact Hnd].
Defined.

Lemma invoke_ignores_surplus_arguments_witness :
  invokeSmartContract (sdk := Sample.sdk) Sample.this JNull "Token" JNull
    {| a_func := Some (JStr "transfer");
       a_args := Some ([JStr "AQf4Mzu1"; JNum 5] ++ [JNum 99; JNull]) |}
    JNull Sample.deployed
  = invokeSmartContract (sdk := Sample.sdk) Sample.this JNull "Token" JNull
      {| a_func := Some (JStr "transfer");
         a_args := Some [JStr "AQf4Mzu1"; JNum 5] |}
      JNull Sample.deployed.
Proof.
  apply (invoke_ignores_surplus_arguments (sdk := Sample.sdk) Sample.this JNull
           "Token" JNull _ JNull Sample.deployed Sample.tokenAbi
           (JStr "transfer") Scenario.transferDecl).
  - by vm_compute.
  - reflexivity.
  - reflexivity.
  - simpl. lia.
Defined.

(** ** The registry over the life of the adapter *)

Lemma settle_transfer_frame (txHash txData : string) (reply : Reply) (st : State) :
  contractAbiInfo (fst (settle (transfer txHash txData) reply st))
    = contractAbiInfo st ∧
  heap (fst (settle (transfer txHash txData) reply st)) = heap st.
Proof.
  unfold settle, transfer, postTx_then, then_, onPosted, number_GetID, log,
    emit, throw, mbind, M_bind, bind, ret.
  destruct reply as [result|e]; simpl; [|done].
  by destruct (result <? 0)%Z.
Qed.

Section Lifetime.
Context `{sdk : OntSdk}.
Variable files : gmap string string.
Variable heights : nat → Z.


Lemma invoke_settled_frame (this : Ontology) context contractID contractVer
    args timeout reply st :
  contractAbiInfo
    (fst (settle (invokeSmartContract this context contractID contractVer args
                    timeout) reply st)) = contractAbiInfo st ∧
  heap st ⊆
    heap (fst (settle (invokeSmartContract this context contractID contractVer
                         args timeout) reply st)).
Proof.
  unfold settle.
  destruct ((invokeSmartContract this context contractID contractVer args
               timeout ≫= λ pr, pr reply) st) as [st' res] eqn:E.
  assert (Hk : keeps (contractAbiInfo st) (heap st)
                 (invokeSmartContract this context contractID contractVer args
                    timeout ≫= λ pr, pr reply) (λ _, True)).
  { eapply keeps_bind; [apply keeps_invokeSmartContract|].
    intros pr Hpr. apply Hpr. }
  by destruct (Hk st st' res) as [[Hreg Hsub] _]; [by split|exact E|].
Qed.

(** X13 — nothing ever removes a registry entry.  [installSmartContract]
    may add names and never drops one; [invokeSmartContract], [transfer] and
    [waitABlock] leave the registry exactly as it is, whatever the transport
    answers. *)
Theorem registry_never_shrinks (this : Ontology) (st : State) :
  (∀ fuel,
     dom (contractAbiInfo st) ⊆
     dom (contractAbiInfo
            (fst (installSmartContract files heights fuel this st)))) ∧
  (∀ context contractID contractVer args timeout reply,
     contractAbiInfo
       (fst (settle (invokeSmartContract this context contractID contractVer
                       args timeout) reply st)) = contractAbiInfo st) ∧
  (∀ txHash txData reply,
     contractAbiInfo (fst (settle (transfer txHash txData) reply st))
       = contractAbiInfo st) ∧
  (∀ fuel,
     contractAbiInfo (fst (waitABlock heights fuel st)) = contractAbiInfo st).
Proof.
  split; [|split; [|split]].
  - intros fuel. unfold installSmartContract.
    destruct (forEach (deployItem files this) (contractConfig this) st)
      as [st1 [[]|e]] eqn:E; [|by eapply forEach_deployItem_dom].
    destruct (waitABlock_frame heights fuel st1) as [Hr _].
    destruct (waitABlock heights fuel st1) as [st2 [[]|]]; simpl in *;
      rewrite Hr; by eapply forEach_deployItem_dom.
  - intros. apply invoke_settled_frame.
  - intros. apply settle_transfer_frame.
  - intros. apply waitABlock_frame.
Qed.


End Lifetime.


(** ** Calls one after the other *)

Section Sequences.
Context `{sdk : OntSdk}.
Variable files : gmap string string.

(** X15 — deploy, then invoke: once an item has been deployed, an
    invocation of its name with a function its ABI file declares and an
    argument list goes through; the invoke transaction is addressed to the
    contract address derived from the bytecode that was just deployed, and
    its serialization is the last thing handed to the transport. *)
Theorem deploy_then_invoke (this : Ontology) item code text fs name f l
    context contractVer timeout st :
  files !! item_path item = Some code →
  files !! item_abi item = Some text →
  parseJson text = Ok fs →
  findFunction name fs = Some f →
  let tx :=
    signTransaction
      (makeInvokeTransaction (f_name f) (bindAll l (f_parameters f))
         (fromVmCode (JStr code)) "0" "20000000" (address (account this)))
      (privateKey this) in
  ∃ st1 st2,
    deployItem files this item st = (st1, Ok tt) ∧
    invokeSmartContract this context (item_name item) contractVer
      {| a_func := Some name; a_args := Some l |} timeout st1
      = (st2, Ok (posted (newTxStatus (reverseHex (getHash tx))))) ∧
    last (trace st2) = Some (EvPostTx (serialize tx)).
Proof.
  intros Hcode Habi Hparse Hf tx.
  destruct (deployItem_registers files this item code text fs st
              Hcode Habi Hparse) as (st1 & l1 & E1 & _ & L1).
  exists st1. eexists. split; [exact E1|].
  rewrite (invokeSmartContract_run this _ _ _ _ _ st1
             {| functions := fs; vmCode := JStr code |} name f)
    by (done || (left; by eexists)).
  split; [reflexivity|]. unfold withTrace. simpl.
  by rewrite last_app.
Qed.

(** X16 — an invocation does not depend on the invocations made before
    it: in a state where every registry entry leads to an ABI description,
    a call raises the same error or returns the same promise (same
    transaction hash, same callback) whether or not another invocation,
    with any arguments and any reply of the transport, has run first.  The
    descriptor bound by one call is not seen by the next. *)
Theorem invoke_independent_of_earlier_invoke (this : Ontology)
    context1 contractID1 contractVer1 args1 timeout1 reply1
    context contractID contractVer args timeout st :
  wf st →
  let st' :=
    fst (settle (invokeSmartContract this context1 contractID1 contractVer1
                   args1 timeout1) reply1 st) in
  snd (invokeSmartContract this context contractID contractVer args timeout st')
  = snd (invokeSmartContract this context contractID contractVer args timeout
           st).
Proof.
  intros Hwf st'.
  destruct (invoke_settled_frame this context1 contractID1 contractVer1 args1
              timeout1 reply1 st) as [Hreg Hsub].
  fold st' in Hreg, Hsub.
  destruct (contractAbiInfo st !! contractID) as [abiInfo|] eqn:Hl.
  2:{ unfold invokeSmartContract. rewrite !bind_unfold. unfold registryGet.
      by rewrite Hreg, Hl. }
  destruct (Hwf contractID ltac:(by eexists)) as [a Ha].
  assert (Ha' : lookupAbi st' contractID = Some a).
  { apply lookupAbi_Some in Ha as (l & H1 & H2). apply lookupAbi_Some.
    exists l. rewrite Hreg. split; [done|]. by eapply lookup_weaken. }
  destruct (findFunction (args_func args) (functions a)) as [f|] eqn:Hf.
  2:{ rewrite !(invokeSmartContract_undeclared this _ _ _ _ _ _ a) by done.
      by destruct getFunctionMissing. }
  destruct (a_func args) as [name|] eqn:Hfunc.
  2:{ unfold args_func in Hf. rewrite Hfunc in Hf. discriminate. }
  assert (Hname : args_func args = name)
    by (unfold args_func; by rewrite Hfunc).
  rewrite Hname in Hf.
  destruct (a_args args) as [l|] eqn:Hargs.
  - by rewrite !(invokeSmartContract_run this _ _ _ _ _ _ a name f)
      by (done || (left; by eexists)).
  - destruct (f_parameters f) as [|q ps] eqn:Hps.
    + by rewrite !(invokeSmartContract_run this _ _ _ _ _ _ a name f)
        by (done || (by right)).
    + by rewrite !(invokeSmartContract_no_args this _ _ _ _ _ _ a name f)
        by (done || by rewrite Hps).
Qed.

End Sequences.

Lemma deploy_then_invoke_witness :
  ∃ st1 st2,
    deployItem (sdk := Sample.sdk) Sample.files Sample.this Scenario.coin
      Sample.deployed = (st1, Ok tt) ∧
    invokeSmartContract (sdk := Sample.sdk) Sample.this JNull "Coin" JNull
      {| a_func := Some (JStr "mint"); a_args := Some [JNum 7] |} JNull st1
      = (st2, Ok (posted (newTxStatus
                            "rev:hash(invoke:mint@addr:51c56b#sk:9d1e)"))) ∧
    last (trace st2) = Some (EvPostTx "raw(invoke:mint@addr:51c56b#sk:9d1e)").
Proof.
  apply (deploy_then_invoke (sdk := Sample.sdk) Sample.files Sample.this
           Scenario.coin "51c56b" "token-abi-v2"
           [ {| f_name := "mint"; f_returntype := "Bool"; f_parameters := [] |} ]
           (JStr "mint")
           {| f_name := "mint"; f_returntype := "Bool"; f_parameters := [] |}
           [JNum 7] JNull JNull JNull Sample.deployed);
    reflexivity.
Defined.

Lemma invoke_independent_of_earlier_invoke_witness :
  snd (invokeSmartContract (sdk := Sample.sdk) Sample.this JNull "Token" JNull
         Sample.transferCall JNull
         (fst (settle (invokeSmartContract (sdk := Sample.sdk) Sample.this
                         JNull "Token" JNull
                         {| a_func := Some (JStr "transfer");
                            a_args := Some [JStr "other"; JNum 1000] |} JNull)
                 (Fulfilled 0) Sample.deployed)))
  = snd (invokeSmartContract (sdk := Sample.sdk) Sample.this JNull "Token"
           JNull Sample.transferCall JNull Sample.deployed).
Proof.
  apply (invoke_independent_of_earlier_invoke (sdk := Sample.sdk)).
  apply (installSmartContract_wf (sdk := Sample.sdk) Sample.files
           (Sample.heightsOf [10; 11]%Z) 1 Sample.this initState).
  apply wf_initState.
Defined.
